(** * steps-carthage: the step's entry point (main.go)

    A shallow embedding of [main.go]: option parsing, the project-directory
    override, the xcconfig override, the Carthage version probe and the
    top-level run.  Go strings are byte strings ([string]); a function that
    logs, calls a collaborator or terminates the process is a computation
    in the [proc] monad, which records the observable events in order and
    ends either with a returned value or with the process's exit status. *)

From Stdlib Require Import Ascii String List Bool ZArith Lia DecimalString.
From stdpp Require Import base option list strings.

Local Open Scope Z_scope.

(** ** Go values and effects *)

(** A Go [error] is identified with its message; [None] is [nil]. *)
Definition error : Type := string.

(** The step inputs, as [stepconf] binds them from the environment. *)
Record Config : Type := {
  GithubAccessToken : string;
  CarthageCommand : string;
  CarthageOptions : string;
  SourceDir : string;
  Xcconfig : string;
  XcconfigFromEnv : string;
  VerboseLog : bool
}.

(** What a run can be observed to do, in order. *)
Inductive event : Type :=
| FmtPrintln
| LogInfof (msg : string)
| LogPrintf (msg : string)
| LogWarnf (msg : string)
| LogErrorf (msg : string)
| LogSetEnableDebugLog (enable : bool)
| StepconfPrint (configs : Config)
| FileProviderLocalPath (path : string)
| RunnerRun (command : string) (args : list string) (xcconfig projectDir swiftVersion : string).

(** A computation either returns to its caller or ends the process
    ([os.Exit]). *)
Inductive outcome (A : Type) : Type :=
| Return (a : A)
| Exit (code : Z).
Arguments Return {A} a.
Arguments Exit {A} code.

Definition proc (A : Type) : Type := list event * outcome A.

#[global] Instance proc_ret : MRet proc := fun A a => ([], Return a).

#[global] Instance proc_bind : MBind proc := fun A B k m =>
  match m with
  | (tr, Return a) => let (tr', o) := k a in (tr ++ tr', o)
  | (tr, Exit code) => (tr, Exit code)
  end.

Definition emit (e : event) : proc unit := ([e], Return tt).

Definition os_Exit {A} (code : Z) : proc A := ([], Exit code).

Definition trace {A} (m : proc A) : list event := fst m.
Definition result {A} (m : proc A) : outcome A := snd m.

Definition is_warning (e : event) : bool :=
  match e with LogWarnf _ => true | _ => false end.

Definition is_resolution (e : event) : bool :=
  match e with FileProviderLocalPath _ => true | _ => false end.

Definition is_runner_run (e : event) : bool :=
  match e with RunnerRun _ _ _ _ _ => true | _ => false end.

Definition warnings {A} (m : proc A) : list event := filter is_warning (trace m).

(** ** Characters and the Go string library *)

Definition newline : ascii := "010"%char.
Definition tab : ascii := "009"%char.
Definition space : ascii := " "%char.
Definition singleChar : ascii := "039"%char.
Definition doubleChar : ascii := "034"%char.
Definition escapeChar : ascii := "092"%char.

Definition str (c : ascii) : string := String c EmptyString.

(** [strings.Split(s, sep)] for a one-byte separator: the pieces between
    the separators, one more than there are separators. *)
Fixpoint strings_Split (s : string) (sep : ascii) : list string :=
  match s with
  | EmptyString => [EmptyString]
  | String c rest =>
      match strings_Split rest sep with
      | [] => [EmptyString]
      | piece :: pieces =>
          if Ascii.eqb c sep then EmptyString :: piece :: pieces
          else String c piece :: pieces
      end
  end.

(** [strings.Replace(s, old, new, -1)] for a one-byte [old]. *)
Fixpoint strings_Replace (s : string) (old : ascii) (new : string) : string :=
  match s with
  | EmptyString => EmptyString
  | String c rest =>
      if Ascii.eqb c old then new +:+ strings_Replace rest old new
      else String c (strings_Replace rest old new)
  end.

(** ** main.go *)

Definition projectDirArg : string := "--project-directory".

(** [FileProvider]: the one method of the interface, returning Go's pair. *)
Definition FileProvider : Type := string -> string * option error.

(** [fail]: log the error line, then [os.Exit(1)]. *)
Definition fail {A} (msg : string) : proc A :=
  emit (LogErrorf msg) ;; os_Exit 1.

(** [parseXCConfigPath].  [rest] is the function from its second [if] on,
    entered with the current value of [pathToUse]. *)
Definition parseXCConfigPath (pathFromStepInput pathFromEnv : string)
    (fileProvider : FileProvider) : proc (string * option error) :=
  let rest (pathToUse : string) : proc (string * option error) :=
    if negb (String.eqb pathFromEnv EmptyString) then
      if negb (String.eqb pathToUse EmptyString) then
        emit (LogWarnf "Both `xcconfig` input and `XCODE_XCCONFIG_FILE` are set. Using `xcconfig` input.") ;;
        mret (pathToUse, None)
      else mret (pathFromEnv, None)
    else mret (pathToUse, None) in
  if negb (String.eqb pathFromStepInput EmptyString) then
    emit (FileProviderLocalPath pathFromStepInput) ;;
    match fileProvider pathFromStepInput with
    | (_, Some err) => mret (EmptyString, Some err)
    | (localPath, None) => rest localPath
    end
  else rest EmptyString.

(** [parseProjectDir]: the loop, with its two variables as arguments; the
    first equation is the loop running out of options, [continue] is the
    recursive call and [break] returns at once. *)
Fixpoint parseProjectDir_loop (projectDir : string) (isNextOptionProjectDir : bool)
    (customCarthageOptions : list string) : proc string :=
  match customCarthageOptions with
  | [] => mret projectDir
  | option :: rest =>
      if String.eqb option projectDirArg then
        parseProjectDir_loop projectDir true rest
      else if isNextOptionProjectDir then
        let projectDir := option in
        emit FmtPrintln ;;
        emit (LogInfof ("--project-directory flag found with value: " +:+ projectDir)) ;;
        emit (LogPrintf ("using " +:+ projectDir +:+ " as working directory")) ;;
        mret projectDir
      else parseProjectDir_loop projectDir isNextOptionProjectDir rest
  end.

Definition parseProjectDir (originalDir : string) (customCarthageOptions : list string)
    : proc string :=
  parseProjectDir_loop originalDir false customCarthageOptions.

(** What the loop logs when it takes [v] as the project directory. *)
Definition found_log (v : string) : list event :=
  [ FmtPrintln;
    LogInfof ("--project-directory flag found with value: " +:+ v);
    LogPrintf ("using " +:+ v +:+ " as working directory") ].

(** The reading of the override the loop implements, stated on the list:
    the tokens after the first flag, and among them the first that is
    not the flag. *)
Fixpoint after_first_flag (options : list string) : list string :=
  match options with
  | [] => []
  | option :: rest =>
      if String.eqb option projectDirArg then rest else after_first_flag rest
  end.

Definition taken_value (options : list string) : option string :=
  head (filter (fun option => option ≠ projectDirArg) (after_first_flag options)).

(** ** The shell word splitter used by [parseCarthageOptions] *)

(** The three ways an option string can be malformed. *)
Inductive split_error : Type :=
| UnterminatedSingleQuoteError
| UnterminatedDoubleQuoteError
| UnterminatedEscapeError.

(** The word separators: space, newline and tab. *)
Definition splitChars (c : ascii) : bool :=
  Ascii.eqb c space || Ascii.eqb c newline || Ascii.eqb c tab.

(** The characters a backslash escapes inside double quotes:
    dollar, backquote, double quote, newline and backslash. *)
Definition doubleEscapeChars (c : ascii) : bool :=
  Ascii.eqb c "$"%char || Ascii.eqb c "`"%char || Ascii.eqb c doubleChar
  || Ascii.eqb c newline || Ascii.eqb c escapeChar.

(** The four scanning modes of a word: outside quotes, just after a
    backslash, inside single quotes, inside double quotes. *)
Inductive label : Type := raw | escape | single | double.

(** Modelled from the spec: the word scanner of [shellquote.Split], the
    go-shellquote dependency, whose source is not part of [src/]; it
    follows the POSIX shell quoting rules the spec names.  [buf] is the
    word read so far; the result is the word and the input left after it.
    A word ends at an unquoted separator or at the end of the input.
    Single quotes keep everything up to the closing quote; inside double
    quotes a backslash is kept unless it precedes one of
    [doubleEscapeChars]; a backslash-newline pair is dropped; outside
    quotes a backslash keeps the next character.  Every special character
    is a single byte below 128, so scanning bytes and scanning UTF-8
    runes give the same words. *)
Fixpoint splitWord_from (l : label) (buf input : string) : string * string + split_error :=
  match input with
  | EmptyString =>
      match l with
      | raw => inl (buf, EmptyString)
      | escape => inr UnterminatedEscapeError
      | single => inr UnterminatedSingleQuoteError
      | double => inr UnterminatedDoubleQuoteError
      end
  | String c cur =>
      match l with
      | raw =>
          if Ascii.eqb c singleChar then splitWord_from single buf cur
          else if Ascii.eqb c doubleChar then splitWord_from double buf cur
          else if Ascii.eqb c escapeChar then splitWord_from escape buf cur
          else if splitChars c then inl (buf, cur)
          else splitWord_from raw (buf +:+ str c) cur
      | escape =>
          if Ascii.eqb c newline then splitWord_from raw buf cur
          else splitWord_from raw (buf +:+ str c) cur
      | single =>
          if Ascii.eqb c singleChar then splitWord_from raw buf cur
          else splitWord_from single (buf +:+ str c) cur
      | double =>
          if Ascii.eqb c doubleChar then splitWord_from raw buf cur
          else if Ascii.eqb c escapeChar then
            match cur with
            | EmptyString => inr UnterminatedDoubleQuoteError
            | String c2 cur2 =>
                if doubleEscapeChars c2 then
                  if Ascii.eqb c2 newline then splitWord_from double buf cur2
                  else splitWord_from double (buf +:+ str c2) cur2
                else splitWord_from double (buf +:+ str c +:+ str c2) cur2
            end
          else splitWord_from double (buf +:+ str c) cur
      end
  end.

Definition splitWord (input : string) : string * string + split_error :=
  splitWord_from raw EmptyString input.

(** Modelled from the spec: the loop of [shellquote.Split] (go-shellquote,
    not part of [src/]): skip separators and backslash-newline pairs
    between words, read one word with [splitWord], go on with the input
    left after it.  Each round consumes at least one byte, so the
    length of the input is fuel enough ([Split_loop_fuel]). *)
Fixpoint Split_loop (fuel : nat) (words : list string) (input : string)
    : list string + split_error :=
  match fuel, input with
  | _, EmptyString => inl words
  | O, _ => inl words
  | S fuel, String c next =>
      let word_then_loop :=
        match splitWord input with
        | inl (word, remainder) => Split_loop fuel (words ++ [word]) remainder
        | inr err => inr err
        end in
      if splitChars c then Split_loop fuel words next
      else if Ascii.eqb c escapeChar then
        match next with
        | EmptyString => inr UnterminatedEscapeError
        | String c2 next2 =>
            if Ascii.eqb c2 newline then Split_loop fuel words next2
            else word_then_loop
        end
      else word_then_loop
  end.

Definition Split (input : string) : list string + split_error :=
  Split_loop (String.length input) [] input.

(** *** Quoting, read off the option string *)

(** Where a scan of an option string stands with respect to quotes. *)
Inductive quoting : Type := Unquoted | SingleQuoted | DoubleQuoted.

(** The quoting a string leaves open, read by the POSIX rules: a single
    quote opens a span that only the next single quote closes; a double
    quote opens a span closed by the next double quote that no backslash
    escapes; outside single quotes a backslash takes the character after
    it with it. *)
Fixpoint quoting_after (q : quoting) (s : string) : quoting :=
  match s with
  | EmptyString => q
  | String c rest =>
      match q with
      | Unquoted =>
          if Ascii.eqb c singleChar then quoting_after SingleQuoted rest
          else if Ascii.eqb c doubleChar then quoting_after DoubleQuoted rest
          else if Ascii.eqb c escapeChar then
            match rest with
            | EmptyString => Unquoted
            | String _ rest2 => quoting_after Unquoted rest2
            end
          else quoting_after Unquoted rest
      | SingleQuoted =>
          if Ascii.eqb c singleChar then quoting_after Unquoted rest
          else quoting_after SingleQuoted rest
      | DoubleQuoted =>
          if Ascii.eqb c doubleChar then quoting_after Unquoted rest
          else if Ascii.eqb c escapeChar then
            match rest with
            | EmptyString => DoubleQuoted
            | String _ rest2 => quoting_after DoubleQuoted rest2
            end
          else quoting_after DoubleQuoted rest
      end
  end.

(** Unbalanced quoting: the string ends inside a quoted span. *)
Definition unbalanced (s : string) : Prop := quoting_after Unquoted s ≠ Unquoted.

(** The quoting left open by [input] when the word scanner stands at [l]. *)
Definition label_quoting (l : label) (input : string) : quoting :=
  match l with
  | raw => quoting_after Unquoted input
  | escape =>
      match input with
      | EmptyString => Unquoted
      | String _ rest => quoting_after Unquoted rest
      end
  | single => quoting_after SingleQuoted input
  | double => quoting_after DoubleQuoted input
  end.

(** The error that reports what a string leaves open. *)
Definition open_error (q : quoting) : split_error :=
  match q with
  | Unquoted => UnterminatedEscapeError
  | SingleQuoted => UnterminatedSingleQuoteError
  | DoubleQuoted => UnterminatedDoubleQuoteError
  end.

(** [parseCarthageOptions].  The format string of the failure names two
    operands and is given one, which Go prints as [%!s(MISSING)]. *)
Definition parseCarthageOptions (config : Config) : proc (list string) :=
  let customCarthageOptions : list string := [] in
  if negb (String.eqb (CarthageOptions config) EmptyString) then
    match Split (CarthageOptions config) with
    | inr err =>
        fail ("Failed to shell split CarthageOptions (" +:+ CarthageOptions config
              +:+ "), error: %!s(MISSING)")
    | inl options => mret options
    end
  else mret customCarthageOptions.

(** The line [parseCarthageOptions] logs before it ends the process. *)
Definition split_failure_log (config : Config) : list event :=
  [ LogErrorf ("Failed to shell split CarthageOptions (" +:+ CarthageOptions config
               +:+ "), error: %!s(MISSING)") ].

(** The option string of the scenario: the last option is in double quotes. *)
Definition scenario_options : string :=
  "--platform iOS --project-directory " +:+ str doubleChar +:+ "My Project" +:+ str doubleChar.

Definition scenario_tokens : list string :=
  ["--platform"; "iOS"; "--project-directory"; "My Project"].

(** ** The version probe *)

(** The loop of [getCarthageVersion] over the lines of the output. *)
Fixpoint getCarthageVersion_loop {V : Type} (NewVersion : string -> option V)
    (outLines : list string) : option V :=
  match outLines with
  | [] => None
  | outLine :: rest =>
      match NewVersion outLine with
      | Some currentVersion => Some currentVersion
      | None => getCarthageVersion_loop NewVersion rest
      end
  end.

(** [getCarthageVersion], given the version parser and what running
    [carthage version] returned (trimmed combined output, error). *)
Definition getCarthageVersion {V : Type} (NewVersion : string -> option V)
    (cmd : string * option error) : V + error :=
  let (out, err) := cmd in
  match err with
  | Some err => inr err
  | None =>
      match getCarthageVersion_loop NewVersion (strings_Split out newline) with
      | Some currentVersion => inl currentVersion
      | None => inr ("failed to parse `$ carthage version` output: " +:+ out)
      end
  end.

(** [getSwiftVersion] returns what running [swift -version] returned. *)
Definition getSwiftVersion (cmd : string * option error) : string * option error := cmd.

(** ** The version parser handed to the probe *)

Record Version : Type := {
  segments : list Z;
  pre : string;
  metadata : string;
  original : string
}.

Definition isDigit (c : ascii) : bool :=
  (48 <=? nat_of_ascii c)%nat && (nat_of_ascii c <=? 57)%nat.

Definition isLetter (c : ascii) : bool :=
  ((65 <=? nat_of_ascii c)%nat && (nat_of_ascii c <=? 90)%nat)
  || ((97 <=? nat_of_ascii c)%nat && (nat_of_ascii c <=? 122)%nat).

(** The characters of a pre-release or metadata identifier. *)
Definition isIdChar (c : ascii) : bool :=
  isDigit c || isLetter c || Ascii.eqb c "-"%char || Ascii.eqb c "~"%char.

Fixpoint all_chars (p : ascii -> bool) (s : string) : bool :=
  match s with
  | EmptyString => true
  | String c rest => p c && all_chars p rest
  end.

(** The longest prefix of [s] whose characters satisfy [p], and the rest. *)
Fixpoint span (p : ascii -> bool) (s : string) : string * string :=
  match s with
  | EmptyString => (EmptyString, EmptyString)
  | String c rest =>
      if p c then let (taken, left) := span p rest in (String c taken, left)
      else (EmptyString, s)
  end.

Definition nonEmpty (s : string) : bool := negb (String.eqb s EmptyString).

(** Dot-separated identifiers, none of them empty. *)
Definition isDotted (p : ascii -> bool) (s : string) : bool :=
  forallb (fun piece => nonEmpty piece && all_chars p piece) (strings_Split s "."%char).

Definition maxInt64 : Z := 9223372036854775807.

(** [strconv.ParseInt(s, 10, 64)] on a string of decimal digits. *)
Fixpoint parseDigits (acc : Z) (s : string) : Z :=
  match s with
  | EmptyString => acc
  | String c rest => parseDigits (10 * acc + (Z.of_nat (nat_of_ascii c) - 48)) rest
  end.

Definition parseSegment (s : string) : option Z :=
  let n := parseDigits 0 s in
  if n <=? maxInt64 then Some n else None.

Fixpoint padSegments (missing : nat) (segs : list Z) : list Z :=
  match missing with
  | O => segs
  | S missing => padSegments missing (segs ++ [0])
  end.

(** Modelled from the spec: [version.NewVersion] of the go-version
    dependency (not part of [src/]), the test for a line that parses as
    a valid semantic version.  A version is an optional [v], then decimal
    numerals separated by dots, then an optional pre-release (after a
    hyphen, or starting with a letter, hyphen or tilde), then optional
    build metadata after a plus sign.  Each numeral must fit a signed
    64-bit integer; fewer than three numerals are padded with zeros. *)
Definition NewVersion (v : string) : option Version :=
  let body := match v with
              | String c rest => if Ascii.eqb c "v"%char then rest else v
              | EmptyString => v
              end in
  let (numeric, afterNumeric) := span (fun c => isDigit c || Ascii.eqb c "."%char) body in
  let (preRaw, plusMeta) := span (fun c => negb (Ascii.eqb c "+"%char)) afterNumeric in
  let preOk :=
    match preRaw with
    | EmptyString => true
    | String c _ => negb (isDigit c) && isDotted isIdChar preRaw
    end in
  let preValue :=
    match preRaw with
    | String c rest =>
        if Ascii.eqb c "-"%char && isDotted isIdChar rest then rest else preRaw
    | EmptyString => EmptyString
    end in
  let metaValue := match plusMeta with String _ m => m | EmptyString => EmptyString end in
  let metaOk := match plusMeta with String _ m => isDotted isIdChar m | EmptyString => true end in
  if isDotted isDigit numeric && preOk && metaOk then
    segs ← mapM parseSegment (strings_Split numeric "."%char);
    Some {| segments := padSegments (3 - length segs) segs;
            pre := preValue; metadata := metaValue; original := v |}
  else None.

Definition formatInt (n : Z) : string :=
  DecimalString.NilZero.string_of_int (Z.to_int n).

Fixpoint strings_Join (pieces : list string) (sep : string) : string :=
  match pieces with
  | [] => EmptyString
  | [piece] => piece
  | piece :: rest => piece +:+ sep +:+ strings_Join rest sep
  end.

(** Modelled from the spec: [Version.String] of the go-version dependency
    (not part of [src/]), the text the run logs for the version: the
    numerals joined with dots, then the pre-release after a hyphen and
    the metadata after a plus sign when there are any. *)
Definition Version_String (v : Version) : string :=
  strings_Join (map formatInt (segments v)) "."
  +:+ (if nonEmpty (pre v) then "-" +:+ pre v else EmptyString)
  +:+ (if nonEmpty (metadata v) then "+" +:+ metadata v else EmptyString).

(** The probe output of the scenario, as printed and as the command
    wrapper hands it over (trimmed). *)
Definition probe_output : string :=
  "carthage version" +:+ str newline +:+ "0.38.0" +:+ str newline.

Definition probe_output_trimmed : string :=
  "carthage version" +:+ str newline +:+ "0.38.0".

(** ** Option strings as a user writes them *)

(** The characters the shell reads specially in an option string. *)
Definition isSpecial (c : ascii) : bool :=
  Ascii.eqb c singleChar || Ascii.eqb c doubleChar || Ascii.eqb c escapeChar || splitChars c.

(** A stretch of a word: bare text, a character after a backslash, text
    in single quotes, text in double quotes. *)
Inductive piece : Type :=
| Bare (s : string)
| Backslash (c : ascii)
| InSingle (s : string)
| InDouble (s : string).

(** What the user types for a piece, and the text the piece stands for. *)
Definition piece_text (p : piece) : string :=
  match p with
  | Bare s => s
  | Backslash c => String escapeChar (str c)
  | InSingle s => String singleChar (s +:+ str singleChar)
  | InDouble s => String doubleChar (s +:+ str doubleChar)
  end.

Definition piece_value (p : piece) : string :=
  match p with
  | Bare s => s
  | Backslash c => str c
  | InSingle s => s
  | InDouble s => s
  end.

(** Bare text is not empty and holds no special character; a backslash
    does not stand before a newline; text in single quotes holds no
    single quote, whatever else it holds (spaces included); text in
    double quotes holds no double quote and no backslash. *)
Definition piece_ok (p : piece) : bool :=
  match p with
  | Bare s => nonEmpty s && all_chars (fun c => negb (isSpecial c)) s
  | Backslash c => negb (Ascii.eqb c newline)
  | InSingle s => all_chars (fun c => negb (Ascii.eqb c singleChar)) s
  | InDouble s =>
      all_chars (fun c => negb (Ascii.eqb c doubleChar) && negb (Ascii.eqb c escapeChar)) s
  end.

(** A word is one piece or more, written without anything between them. *)
Fixpoint word_text (w : list piece) : string :=
  match w with
  | [] => EmptyString
  | p :: w => piece_text p +:+ word_text w
  end.

Fixpoint word_value (w : list piece) : string :=
  match w with
  | [] => EmptyString
  | p :: w => piece_value p +:+ word_value w
  end.

Definition word_ok (w : list piece) : bool :=
  match w with
  | [] => false
  | _ => forallb piece_ok w
  end.

(** An option string: words, each followed by separators (spaces, tabs,
    newlines), at least one between two words. *)
Fixpoint line_text (items : list (list piece * string)) : string :=
  match items with
  | [] => EmptyString
  | (w, sep) :: items => word_text w +:+ sep +:+ line_text items
  end.

Fixpoint line_ok (items : list (list piece * string)) : bool :=
  match items with
  | [] => true
  | (w, sep) :: items =>
      word_ok w && all_chars splitChars sep
      && (nonEmpty sep || match items with [] => true | _ => false end)
      && line_ok items
  end.

Definition line_values (items : list (list piece * string)) : list string :=
  map (fun item => word_value (fst item)) items.

(** The option string of the scenario, word by word. *)
Definition scenario_line : list (list piece * string) :=
  [ ([Bare "--platform"], " "); ([Bare "iOS"], " ");
    ([Bare "--project-directory"], " "); ([InDouble "My Project"], EmptyString) ].

(** ** The run *)

(** What [main] gets from outside the file: the parsed step inputs, the
    two probe commands, the version library, the file provider and the
    cached runner. *)
Record World (V : Type) : Type := {
  stepconf_Parse : Config + error;
  carthage_version_cmd : string * option error;
  swift_version_cmd : string * option error;
  version_NewVersion : string -> option V;
  version_String : V -> string;
  fileProvider_LocalPath : FileProvider;
  runner_Run : string -> list string -> string -> string -> string -> string -> option error
}.
Arguments stepconf_Parse {V} _.
Arguments carthage_version_cmd {V} _.
Arguments swift_version_cmd {V} _.
Arguments version_NewVersion {V} _ _.
Arguments version_String {V} _ _.
Arguments fileProvider_LocalPath {V} _ _.
Arguments runner_Run {V} _ _ _ _ _ _ _.

(** [main].  Returning from it ends the process with status 0. *)
Definition main {V : Type} (w : World V) : proc unit :=
  configs ← match stepconf_Parse w with
            | inl configs => mret configs
            | inr err => fail ("Could not create config: " +:+ err)
            end;
  emit (StepconfPrint configs) ;;
  emit (LogSetEnableDebugLog (VerboseLog configs)) ;;
  emit FmtPrintln ;;
  emit (LogInfof "Environment:") ;;
  carthageVersion ← match getCarthageVersion (version_NewVersion w) (carthage_version_cmd w) with
                    | inl v => mret v
                    | inr err => fail ("Failed to get carthage version, error: " +:+ err)
                    end;
  emit (LogPrintf ("- CarthageVersion: " +:+ version_String w carthageVersion)) ;;
  swiftVersion ← match getSwiftVersion (swift_version_cmd w) with
                 | (out, None) => mret out
                 | (_, Some err) => fail ("Failed to get swift version, error: " +:+ err)
                 end;
  emit (LogPrintf ("- SwiftVersion: " +:+ strings_Replace swiftVersion newline "- ")) ;;
  args ← parseCarthageOptions configs;
  xc ← parseXCConfigPath (Xcconfig configs) (XcconfigFromEnv configs) (fileProvider_LocalPath w);
  xconfigPath ← match xc with
                | (path, None) => mret path
                | (_, Some err) => fail ("Failed to get xcconfig file, error: " +:+ err)
                end;
  projectDir ← parseProjectDir (SourceDir configs) args;
  emit (RunnerRun (CarthageCommand configs) args xconfigPath projectDir swiftVersion) ;;
  match runner_Run w (CarthageCommand configs) args (GithubAccessToken configs)
          xconfigPath projectDir swiftVersion with
  | None => mret tt
  | Some err => fail ("Failed to execute step: " +:+ err)
  end.

(** A run whose option string opens a double quote and never closes it. *)
Definition unbalanced_config : Config := {|
  GithubAccessToken := EmptyString;
  CarthageCommand := "bootstrap";
  CarthageOptions := "--platform " +:+ str doubleChar +:+ "iOS";
  SourceDir := "/src";
  Xcconfig := EmptyString;
  XcconfigFromEnv := EmptyString;
  VerboseLog := false
|}.

Definition unbalanced_world : World Version := {|
  stepconf_Parse := inl unbalanced_config;
  carthage_version_cmd := (probe_output_trimmed, None);
  swift_version_cmd := ("Apple Swift version 5.5", None);
  version_NewVersion := NewVersion;
  version_String := Version_String;
  fileProvider_LocalPath := fun path => (path, None);
  runner_Run := fun _ _ _ _ _ _ => None
|}.

(** The warning of [parseXCConfigPath], and the path it settles on once
    the explicit path is resolved: the resolved path unless it is empty,
    else the path from the environment. *)
Definition xcconfig_warning : event :=
  LogWarnf "Both `xcconfig` input and `XCODE_XCCONFIG_FILE` are set. Using `xcconfig` input.".

Definition first_non_empty (localPath pathFromEnv : string) : string :=
  if nonEmpty localPath then localPath else pathFromEnv.

(** A string that holds no newline. *)
Definition no_newline (s : string) : bool :=
  all_chars (fun c => negb (Ascii.eqb c newline)) s.

(** The events of a run before the probes, and what it logs once both
    probes have answered. *)
Definition start_log (configs : Config) : list event :=
  [ StepconfPrint configs; LogSetEnableDebugLog (VerboseLog configs);
    FmtPrintln; LogInfof "Environment:" ].

Definition environment_log (configs : Config) (carthageVersion swiftVersion : string)
    : list event :=
  start_log configs
  ++ [ LogPrintf ("- CarthageVersion: " +:+ carthageVersion);
       LogPrintf ("- SwiftVersion: " +:+ strings_Replace swiftVersion newline "- ") ].

(** A run with every input set: options with a project directory, both
    xcconfig paths, and a Swift banner of two lines. *)
Definition sample_config : Config := {|
  GithubAccessToken := "token";
  CarthageCommand := "bootstrap";
  CarthageOptions := "--platform iOS --project-directory Sub";
  SourceDir := "/src";
  Xcconfig := "file:///tmp/step.xcconfig";
  XcconfigFromEnv := "env.xcconfig";
  VerboseLog := true
|}.

Definition sample_swift_banner : string :=
  "Apple Swift version 5.5" +:+ str newline +:+ "Target: arm64-apple-macosx".

Definition sample_world : World Version := {|
  stepconf_Parse := inl sample_config;
  carthage_version_cmd := (probe_output_trimmed, None);
  swift_version_cmd := (sample_swift_banner, None);
  version_NewVersion := NewVersion;
  version_String := Version_String;
  fileProvider_LocalPath := fun _ => ("/tmp/step.xcconfig", None);
  runner_Run := fun _ _ _ _ _ _ => None
|}.

(** The same run without options and without xcconfig paths. *)
Definition bare_config : Config := {|
  GithubAccessToken := EmptyString;
  CarthageCommand := "bootstrap";
  CarthageOptions := EmptyString;
  SourceDir := "/src";
  Xcconfig := EmptyString;
  XcconfigFromEnv := EmptyString;
  VerboseLog := false
|}.

Definition bare_world : World Version := {|
  stepconf_Parse := inl bare_config;
  carthage_version_cmd := (probe_output_trimmed, None);
  swift_version_cmd := (sample_swift_banner, None);
  version_NewVersion := NewVersion;
  version_String := Version_String;
  fileProvider_LocalPath := fun path => (path, None);
  runner_Run := fun _ _ _ _ _ _ => None
|}.

(** * Properties *)

(** ** The model on concrete inputs *)

Example strings_Split_lines :
  strings_Split ("a" +:+ str newline +:+ "b" +:+ str newline) newline = ["a"; "b"; EmptyString].
Proof. reflexivity. Qed.

Example strings_Split_empty : strings_Split EmptyString newline = [EmptyString].
Proof. reflexivity. Qed.

Example Split_plain_words : Split "  --platform   iOS " = inl ["--platform"; "iOS"].
Proof. reflexivity. Qed.

Example Split_single_quotes : Split "--derived-data 'My Data' x" = inl ["--derived-data"; "My Data"; "x"].
Proof. reflexivity. Qed.

Example Split_backslash_space :
  Split ("My" +:+ str escapeChar +:+ " Project") = inl ["My Project"].
Proof. reflexivity. Qed.

Example Split_adjacent_quotes :
  Split ("a'b c'" +:+ str doubleChar +:+ "d e" +:+ str doubleChar) = inl ["ab cd e"].
Proof. reflexivity. Qed.

Example Split_escaped_quote_inside_double :
  Split (str doubleChar +:+ "a" +:+ str escapeChar +:+ str doubleChar +:+ "b" +:+ str doubleChar)
  = inl ["a" +:+ str doubleChar +:+ "b"].
Proof. reflexivity. Qed.

Example Split_open_single_quote : Split "--platform 'iOS" = inr UnterminatedSingleQuoteError.
Proof. reflexivity. Qed.

Example Split_open_double_quote :
  Split ("--platform " +:+ str doubleChar +:+ "iOS") = inr UnterminatedDoubleQuoteError.
Proof. reflexivity. Qed.

Example Split_trailing_backslash :
  Split ("--platform" +:+ str escapeChar) = inr UnterminatedEscapeError.
Proof. reflexivity. Qed.

Example NewVersion_padded : option_map segments (NewVersion "v1.2") = Some [1; 2; 0].
Proof. reflexivity. Qed.

Example NewVersion_banner : NewVersion "carthage version" = None.
Proof. reflexivity. Qed.

Example NewVersion_prerelease :
  option_map Version_String (NewVersion "0.38.0-rc.1+build5") = Some "0.38.0-rc.1+build5".
Proof. reflexivity. Qed.

Example parseProjectDir_no_flag :
  parseProjectDir "/src" ["--platform"; "iOS"] = ([], Return "/src").
Proof. reflexivity. Qed.

Example parseProjectDir_first_of_two :
  result (parseProjectDir "/src" [projectDirArg; "A"; projectDirArg; "B"]) = Return "A".
Proof. reflexivity. Qed.

(** ** The project-directory override *)

Section ParseProjectDir.

Implicit Types (d v : string) (pre post opts : list string).

Lemma parseProjectDir_loop_flag d b opts :
  parseProjectDir_loop d b (projectDirArg :: opts) = parseProjectDir_loop d true opts.
Proof. reflexivity. Qed.

Lemma parseProjectDir_loop_value d v opts :
  v ≠ projectDirArg →
  parseProjectDir_loop d true (v :: opts) = (found_log v, Return v).
Proof.
  intros Hv. cbn [parseProjectDir_loop].
  destruct (String.eqb_spec v projectDirArg) as [->|_]; [done|reflexivity].
Qed.

Lemma parseProjectDir_loop_skip d v opts :
  v ≠ projectDirArg →
  parseProjectDir_loop d false (v :: opts) = parseProjectDir_loop d false opts.
Proof.
  intros Hv. cbn [parseProjectDir_loop].
  destruct (String.eqb_spec v projectDirArg) as [->|_]; [done|reflexivity].
Qed.

(** Options before the first flag change nothing. *)
Lemma parseProjectDir_loop_before_flag d pre opts :
  projectDirArg ∉ pre →
  parseProjectDir_loop d false (pre ++ opts) = parseProjectDir_loop d false opts.
Proof.
  induction pre as [|o pre IH]; intros Hpre; [reflexivity|].
  apply not_elem_of_cons in Hpre as [Ho Hpre].
  rewrite <- app_comm_cons, parseProjectDir_loop_skip by done. auto.
Qed.

(** C1 (as amended): for every default directory and token list, at the
    first token equal to the flag literal [--project-directory] the loop
    takes the immediately following token as the project directory, when
    that token is present and is not itself the flag literal; it
    overrides the default, the two log lines name it, and nothing after
    it (later flags included) has any effect. *)
Theorem parseProjectDir_first_flag_value d pre v post :
  projectDirArg ∉ pre →
  v ≠ projectDirArg →
  parseProjectDir d (pre ++ projectDirArg :: v :: post) = (found_log v, Return v).
Proof.
  intros Hpre Hv. unfold parseProjectDir.
  rewrite parseProjectDir_loop_before_flag by done.
  rewrite parseProjectDir_loop_flag. by apply parseProjectDir_loop_value.
Qed.

Lemma parseProjectDir_first_flag_value_witness :
  parseProjectDir "/src" (["--platform"; "iOS"] ++ projectDirArg :: "My Project" :: ["--project-directory"; "Other"])
  = (found_log "My Project", Return "My Project").
Proof.
  apply (parseProjectDir_first_flag_value "/src" ["--platform"; "iOS"] "My Project").
  - intros H. repeat (apply elem_of_cons in H as [H|H]; [discriminate H|]). inversion H.
  - discriminate.
Defined.

(** C1 as stated fails when the token after the first flag is the flag
    again: the immediately following token is the flag literal, and the
    directory returned is the token after it. *)
Lemma parseProjectDir_first_flag_value_counterexample :
  [projectDirArg; projectDirArg; "X"] !! 1%nat = Some projectDirArg
  ∧ result (parseProjectDir "/src" [projectDirArg; projectDirArg; "X"]) = Return "X"
  ∧ result (parseProjectDir "/src" [projectDirArg; projectDirArg; "X"]) ≠ Return projectDirArg.
Proof. split; [reflexivity|]. split; [reflexivity|]. discriminate. Qed.

(** C6: when the flag literal is the last token and no flag precedes it,
    so that no token follows the flag, the default directory is returned
    unchanged; the function has no error result, ends by returning, and
    logs nothing. *)
Theorem parseProjectDir_flag_without_value d pre :
  projectDirArg ∉ pre →
  parseProjectDir d (pre ++ [projectDirArg]) = ([], Return d).
Proof.
  intros Hpre. unfold parseProjectDir.
  rewrite parseProjectDir_loop_before_flag by done.
  by rewrite parseProjectDir_loop_flag.
Qed.

Lemma parseProjectDir_flag_without_value_witness :
  parseProjectDir "/src" (["--platform"; "iOS"] ++ [projectDirArg]) = ([], Return "/src").
Proof.
  apply (parseProjectDir_flag_without_value "/src" ["--platform"; "iOS"]).
  intros H. repeat (apply elem_of_cons in H as [H|H]; [discriminate H|]). inversion H.
Defined.

(** The directory returned is the default, with nothing logged, or a
    token of the list that is not the flag literal. *)
Lemma parseProjectDir_loop_result d b opts :
  parseProjectDir_loop d b opts = ([], Return d)
  ∨ ∃ v, v ∈ opts ∧ v ≠ projectDirArg ∧ parseProjectDir_loop d b opts = (found_log v, Return v).
Proof.
  revert b. induction opts as [|o opts IH]; intros b; [by left|].
  destruct (decide (o = projectDirArg)) as [->|Ho].
  - rewrite parseProjectDir_loop_flag.
    destruct (IH true) as [?|(v & ? & ? & ?)]; [by left|].
    right. exists v. split_and!; [by apply elem_of_cons; right|done..].
  - destruct b.
    + right. exists o. split_and!; [by apply elem_of_cons; left|done|].
      by apply parseProjectDir_loop_value.
    + rewrite parseProjectDir_loop_skip by done.
      destruct (IH false) as [?|(v & ? & ? & ?)]; [by left|].
      right. exists v. split_and!; [by apply elem_of_cons; right|done..].
Qed.

(** C10: the directory value [parseProjectDir] takes from the tokens is
    never the flag literal: what it returns is the default, unchanged, or
    a token different from the flag; a flag right after a flag is read as
    the flag once more, so that the tokens flag, flag, X give X. *)
Theorem parseProjectDir_never_takes_flag d opts pre post :
  (parseProjectDir d opts = ([], Return d)
   ∨ ∃ v, v ∈ opts ∧ v ≠ projectDirArg ∧ parseProjectDir d opts = (found_log v, Return v))
  ∧ parseProjectDir d (pre ++ projectDirArg :: projectDirArg :: post)
    = parseProjectDir d (pre ++ projectDirArg :: post)
  ∧ parseProjectDir d [projectDirArg; projectDirArg; "X"] = (found_log "X", Return "X").
Proof.
  split_and!.
  - apply parseProjectDir_loop_result.
  - unfold parseProjectDir. generalize false.
    induction pre as [|o pre IH]; intros b.
    + by rewrite !app_nil_l, !parseProjectDir_loop_flag.
    + rewrite <- !app_comm_cons. cbn [parseProjectDir_loop].
      destruct (String.eqb o projectDirArg); [apply IH|].
      destruct b; [reflexivity|apply IH].
  - reflexivity.
Qed.

Lemma parseProjectDir_loop_armed d opts :
  parseProjectDir_loop d true opts
  = match head (filter (fun option => option ≠ projectDirArg) opts) with
    | Some v => (found_log v, Return v)
    | None => ([], Return d)
    end.
Proof.
  induction opts as [|o opts IH]; [reflexivity|].
  destruct (decide (o = projectDirArg)) as [->|Ho].
  - rewrite parseProjectDir_loop_flag, IH. by rewrite filter_cons_False by naive_solver.
  - rewrite parseProjectDir_loop_value by done. by rewrite filter_cons_True.
Qed.

(** X1: [parseProjectDir] returns the first token after the first flag
    that is not the flag literal, and logs it; when there is no such
    token it returns the default directory and logs nothing. *)
Theorem parseProjectDir_taken_value d opts :
  parseProjectDir d opts
  = match taken_value opts with
    | Some v => (found_log v, Return v)
    | None => ([], Return d)
    end.
Proof.
  unfold parseProjectDir, taken_value.
  induction opts as [|o opts IH]; [reflexivity|].
  cbn [after_first_flag]. destruct (String.eqb_spec o projectDirArg) as [->|Ho].
  - rewrite parseProjectDir_loop_flag. apply parseProjectDir_loop_armed.
  - by rewrite parseProjectDir_loop_skip.
Qed.

Lemma parseProjectDir_loop_armed_app d opts more :
  parseProjectDir_loop d true (opts ++ more)
  = match head (filter (fun option => option ≠ projectDirArg) opts) with
    | Some v => (found_log v, Return v)
    | None => parseProjectDir_loop d true more
    end.
Proof.
  induction opts as [|o opts IH]; [reflexivity|]. rewrite <- app_comm_cons.
  destruct (decide (o = projectDirArg)) as [->|Ho].
  - rewrite parseProjectDir_loop_flag, IH. by rewrite filter_cons_False by naive_solver.
  - rewrite parseProjectDir_loop_value by done. by rewrite filter_cons_True.
Qed.

(** X12: scanning a list in two parts.  When the first part already
    holds a value for the flag, that value is the result and the second
    part is never read; otherwise the scan goes on through the second
    part, with the flag pending exactly when the first part holds it, so
    that a flag ending the first part takes its value from the second. *)
Theorem parseProjectDir_app d opts more :
  parseProjectDir d (opts ++ more)
  = match taken_value opts with
    | Some v => (found_log v, Return v)
    | None => parseProjectDir_loop d (bool_decide (projectDirArg ∈ opts)) more
    end.
Proof.
  unfold parseProjectDir, taken_value.
  induction opts as [|o opts IH]; [reflexivity|]. rewrite <- app_comm_cons.
  cbn [after_first_flag]. destruct (String.eqb_spec o projectDirArg) as [->|Ho].
  - rewrite parseProjectDir_loop_flag, parseProjectDir_loop_armed_app.
    rewrite bool_decide_eq_true_2; [done|]. apply elem_of_cons. by left.
  - rewrite parseProjectDir_loop_skip, IH by done.
    destruct (head _); [done|]. f_equal.
    apply bool_decide_ext. rewrite elem_of_cons. split; [by right|].
    by intros [Heq|Hin]; [symmetry in Heq|].
Qed.

End ParseProjectDir.

(** ** The xcconfig override *)

Section ParseXCConfigPath.

Implicit Types (pathFromStepInput pathFromEnv localPath : string) (fileProvider : FileProvider).

Lemma nonEmpty_true s : s ≠ EmptyString → negb (String.eqb s EmptyString) = true.
Proof. intros Hs. by destruct (String.eqb_spec s EmptyString). Qed.

Lemma parseXCConfigPath_no_input pathFromEnv fileProvider :
  parseXCConfigPath EmptyString pathFromEnv fileProvider = ([], Return (pathFromEnv, None)).
Proof.
  unfold parseXCConfigPath. cbn.
  by destruct (String.eqb_spec pathFromEnv EmptyString) as [->|_].
Qed.

Lemma parseXCConfigPath_failed pathFromStepInput pathFromEnv fileProvider localPath err :
  pathFromStepInput ≠ EmptyString →
  fileProvider pathFromStepInput = (localPath, Some err) →
  parseXCConfigPath pathFromStepInput pathFromEnv fileProvider
  = ([FileProviderLocalPath pathFromStepInput], Return (EmptyString, Some err)).
Proof.
  intros Hin Hfp. unfold parseXCConfigPath.
  by rewrite (nonEmpty_true _ Hin), Hfp.
Qed.

Lemma parseXCConfigPath_resolved pathFromStepInput pathFromEnv fileProvider localPath :
  pathFromStepInput ≠ EmptyString →
  fileProvider pathFromStepInput = (localPath, None) →
  parseXCConfigPath pathFromStepInput pathFromEnv fileProvider
  = if negb (String.eqb pathFromEnv EmptyString) then
      if negb (String.eqb localPath EmptyString) then
        ([FileProviderLocalPath pathFromStepInput;
          LogWarnf "Both `xcconfig` input and `XCODE_XCCONFIG_FILE` are set. Using `xcconfig` input."],
         Return (localPath, None))
      else ([FileProviderLocalPath pathFromStepInput], Return (pathFromEnv, None))
    else ([FileProviderLocalPath pathFromStepInput], Return (localPath, None)).
Proof.
  intros Hin Hfp. unfold parseXCConfigPath.
  rewrite (nonEmpty_true _ Hin), Hfp.
  destruct (negb (String.eqb pathFromEnv EmptyString));
    destruct (negb (String.eqb localPath EmptyString)); reflexivity.
Qed.

(** C4 (as amended): when the explicit path and the environment path are
    both non-empty and the file provider resolves the explicit path,
    without error, to a non-empty local path, that local path is returned
    (not the environment one) with a nil error and exactly one warning is
    logged; when only the environment path is set, it is returned and
    nothing is logged. *)
Theorem parseXCConfigPath_explicit_wins pathFromStepInput pathFromEnv fileProvider localPath :
  pathFromEnv ≠ EmptyString →
  (pathFromStepInput ≠ EmptyString →
   fileProvider pathFromStepInput = (localPath, None) →
   localPath ≠ EmptyString →
   result (parseXCConfigPath pathFromStepInput pathFromEnv fileProvider) = Return (localPath, None)
   ∧ length (warnings (parseXCConfigPath pathFromStepInput pathFromEnv fileProvider)) = 1%nat)
  ∧ (pathFromStepInput = EmptyString →
     parseXCConfigPath pathFromStepInput pathFromEnv fileProvider = ([], Return (pathFromEnv, None))).
Proof.
  intros Henv. split.
  - intros Hin Hfp Hlocal.
    rewrite (parseXCConfigPath_resolved _ _ _ _ Hin Hfp).
    by rewrite !nonEmpty_true.
  - intros ->. apply parseXCConfigPath_no_input.
Qed.

Lemma parseXCConfigPath_explicit_wins_witness :
  (result (parseXCConfigPath "step.xcconfig" "env.xcconfig" (fun p => ("/tmp/" +:+ p, None)))
   = Return ("/tmp/step.xcconfig", None)
   ∧ length (warnings (parseXCConfigPath "step.xcconfig" "env.xcconfig"
                         (fun p => ("/tmp/" +:+ p, None)))) = 1%nat)
  ∧ parseXCConfigPath EmptyString "env.xcconfig" (fun p => ("/tmp/" +:+ p, None))
    = ([], Return ("env.xcconfig", None)).
Proof.
  split.
  - apply (parseXCConfigPath_explicit_wins "step.xcconfig" "env.xcconfig"
             (fun p => ("/tmp/" +:+ p, None)) "/tmp/step.xcconfig");
      [discriminate|discriminate|reflexivity|discriminate].
  - apply (parseXCConfigPath_explicit_wins EmptyString "env.xcconfig"
             (fun p => ("/tmp/" +:+ p, None)) EmptyString);
      [discriminate|reflexivity].
Defined.

(** C4 as stated fails with both paths non-empty: when the file provider
    cannot resolve the explicit path the function returns the error and no
    path, and when it resolves it to the empty path the function returns
    the environment path; no warning is logged in either case. *)
Lemma parseXCConfigPath_explicit_wins_counterexample :
  (parseXCConfigPath "https://host/step.xcconfig" "env.xcconfig"
     (fun _ => (EmptyString, Some "download failed"))
   = ([FileProviderLocalPath "https://host/step.xcconfig"],
      Return (EmptyString, Some "download failed"))
   ∧ warnings (parseXCConfigPath "https://host/step.xcconfig" "env.xcconfig"
                 (fun _ => (EmptyString, Some "download failed"))) = [])
  ∧ (parseXCConfigPath "step.xcconfig" "env.xcconfig" (fun _ => (EmptyString, None))
     = ([FileProviderLocalPath "step.xcconfig"], Return ("env.xcconfig", None))
     ∧ warnings (parseXCConfigPath "step.xcconfig" "env.xcconfig"
                   (fun _ => (EmptyString, None))) = []).
Proof. repeat split. Qed.

(** C9: the file provider is asked to resolve a path only when the
    explicit input is non-empty, and then exactly that path, once; with
    an empty explicit input and a non-empty environment path the
    environment path is returned as it is, with a nil error and without
    any resolution; an error is returned only when the explicit input is
    non-empty. *)
Theorem parseXCConfigPath_resolves_only_input pathFromStepInput pathFromEnv fileProvider :
  filter is_resolution (trace (parseXCConfigPath pathFromStepInput pathFromEnv fileProvider))
  = (if String.eqb pathFromStepInput EmptyString then []
     else [FileProviderLocalPath pathFromStepInput])
  ∧ (pathFromStepInput = EmptyString → pathFromEnv ≠ EmptyString →
     parseXCConfigPath pathFromStepInput pathFromEnv fileProvider
     = ([], Return (pathFromEnv, None)))
  ∧ (∀ path err,
       result (parseXCConfigPath pathFromStepInput pathFromEnv fileProvider)
       = Return (path, Some err) →
       pathFromStepInput ≠ EmptyString
       ∧ ∃ localPath, fileProvider pathFromStepInput = (localPath, Some err)).
Proof.
  split_and!.
  - destruct (String.eqb_spec pathFromStepInput EmptyString) as [->|Hin].
    + by rewrite parseXCConfigPath_no_input.
    + destruct (fileProvider pathFromStepInput) as [localPath [err|]] eqn:Hfp.
      * by rewrite (parseXCConfigPath_failed _ _ _ _ _ Hin Hfp).
      * rewrite (parseXCConfigPath_resolved _ _ _ _ Hin Hfp).
        destruct (negb (String.eqb pathFromEnv EmptyString));
          destruct (negb (String.eqb localPath EmptyString)); reflexivity.
  - intros -> _. apply parseXCConfigPath_no_input.
  - intros path err.
    destruct (String.eqb_spec pathFromStepInput EmptyString) as [->|Hin].
    + by rewrite parseXCConfigPath_no_input.
    + destruct (fileProvider pathFromStepInput) as [localPath [err'|]] eqn:Hfp.
      * rewrite (parseXCConfigPath_failed _ _ _ _ _ Hin Hfp). cbn.
        intros [= _ ->]. eauto.
      * rewrite (parseXCConfigPath_resolved _ _ _ _ Hin Hfp).
        destruct (negb (String.eqb pathFromEnv EmptyString));
          destruct (negb (String.eqb localPath EmptyString)); discriminate.
Qed.

End ParseXCConfigPath.

(** ** The version probe *)

Section GetCarthageVersion.

Context {V : Type}.
Implicit Types (NewVersion : string → option V) (out outLine : string) (v : V).

(** The loop returns the first line the parser accepts. *)
Lemma getCarthageVersion_loop_first NewVersion (pre post : list string) outLine v :
  Forall (fun l => NewVersion l = None) pre →
  NewVersion outLine = Some v →
  getCarthageVersion_loop NewVersion (pre ++ outLine :: post) = Some v.
Proof.
  intros Hpre Hline. induction Hpre as [|l pre Hl _ IH]; cbn.
  - by rewrite Hline.
  - by rewrite Hl.
Qed.

Lemma getCarthageVersion_loop_none NewVersion (outLines : list string) :
  Forall (fun l => NewVersion l = None) outLines →
  getCarthageVersion_loop NewVersion outLines = None.
Proof. induction 1 as [|l ls Hl _ IH]; cbn; [done|by rewrite Hl]. Qed.

End GetCarthageVersion.

Lemma strings_Split_probe_output :
  strings_Split probe_output newline = ["carthage version"; "0.38.0"; EmptyString].
Proof. reflexivity. Qed.

Lemma strings_Split_probe_output_trimmed :
  strings_Split probe_output_trimmed newline = ["carthage version"; "0.38.0"].
Proof. reflexivity. Qed.

(** C2: for every version parser and every output of a probe command
    that ran without error, [getCarthageVersion] splits the output into
    lines and returns the first line, in order, that the parser accepts;
    when no line parses it returns an error whose message ends with the
    raw output.  The output [carthage version], newline, [0.38.0],
    newline yields the version parsed from [0.38.0], which the modelled
    parser reads as the numerals 0, 38, 0 and prints as [0.38.0]. *)
Theorem getCarthageVersion_first_parsing_line (V : Type) (NewVersion' : string → option V)
    (out : string) :
  (∀ pre outLine post v,
     strings_Split out newline = pre ++ outLine :: post →
     Forall (fun l => NewVersion' l = None) pre →
     NewVersion' outLine = Some v →
     getCarthageVersion NewVersion' (out, None) = inl v)
  ∧ (Forall (fun l => NewVersion' l = None) (strings_Split out newline) →
     getCarthageVersion NewVersion' (out, None)
     = inr ("failed to parse `$ carthage version` output: " +:+ out))
  ∧ (∀ v, NewVersion' "carthage version" = None → NewVersion' "0.38.0" = Some v →
     getCarthageVersion NewVersion' (probe_output, None) = inl v
     ∧ getCarthageVersion NewVersion' (probe_output_trimmed, None) = inl v)
  ∧ ∃ v, getCarthageVersion NewVersion (probe_output, None) = inl v
         ∧ segments v = [0; 38; 0] ∧ Version_String v = "0.38.0".
Proof.
  split_and!.
  - intros pre outLine post v Hsplit Hpre Hline. unfold getCarthageVersion.
    by rewrite Hsplit, (getCarthageVersion_loop_first _ _ _ _ _ Hpre Hline).
  - intros Hnone. unfold getCarthageVersion.
    by rewrite (getCarthageVersion_loop_none _ _ Hnone).
  - intros v Hbanner Hline. unfold getCarthageVersion.
    rewrite strings_Split_probe_output, strings_Split_probe_output_trimmed.
    cbn [getCarthageVersion_loop]. by rewrite Hbanner, Hline.
  - eexists. split_and!; reflexivity.
Qed.

(** ** Shell splitting of the option string *)

Section ShellSplit.

Implicit Types (input buf word remainder : string) (words : list string).

Lemma splitChars_not_special c :
  splitChars c = true →
  Ascii.eqb c singleChar = false ∧ Ascii.eqb c doubleChar = false
  ∧ Ascii.eqb c escapeChar = false.
Proof.
  unfold splitChars. intros H.
  apply orb_true_iff in H as [H|H]; [apply orb_true_iff in H as [H|H]|];
    apply Ascii.eqb_eq in H; subst c; done.
Qed.

(** A word that the scanner delivers leaves behind an input that is
    shorter by at least one byte (when there was any), and the quoting
    open at the end of the whole input is that of the input left. *)
Lemma splitWord_from_remainder n : ∀ input,
  (String.length input ≤ n)%nat → ∀ l buf word remainder,
  splitWord_from l buf input = inl (word, remainder) →
  (String.length remainder ≤ pred (String.length input))%nat
  ∧ label_quoting l input = quoting_after Unquoted remainder.
Proof.
  induction n as [|n IH]; intros input Hn l buf word remainder.
  - destruct input; [|cbn in Hn; lia].
    destruct l; cbn; intros [= <- <-] || discriminate. done.
  - destruct input as [|c cur].
    { destruct l; cbn; intros [= <- <-] || discriminate. done. }
    cbn in Hn. assert (String.length cur ≤ n)%nat as Hcur by lia.
    pose proof (IH cur Hcur) as IHcur.
    destruct l; cbn [splitWord_from label_quoting quoting_after String.length pred].
    + destruct (Ascii.eqb c singleChar) eqn:E1;
        [intros H; apply IHcur in H as [? ?]; split; [lia|done]|].
      destruct (Ascii.eqb c doubleChar) eqn:E2;
        [intros H; apply IHcur in H as [? ?]; split; [lia|done]|].
      destruct (Ascii.eqb c escapeChar) eqn:E3;
        [intros H; apply IHcur in H as [? ?]; split; [lia|done]|].
      destruct (splitChars c).
      * intros [= <- <-]. done.
      * intros H; apply IHcur in H as [? ?]; split; [lia|done].
    + destruct (Ascii.eqb c newline);
        intros H; apply IHcur in H as [? ?]; split; (lia || done).
    + destruct (Ascii.eqb c singleChar);
        intros H; apply IHcur in H as [? ?]; split; (lia || done).
    + destruct (Ascii.eqb c doubleChar);
        [intros H; apply IHcur in H as [? ?]; split; [lia|done]|].
      destruct (Ascii.eqb c escapeChar);
        [|intros H; apply IHcur in H as [? ?]; split; [lia|done]].
      destruct cur as [|c2 cur2]; [discriminate|].
      cbn in Hcur. assert (String.length cur2 ≤ n)%nat as Hcur2 by lia.
      pose proof (IH cur2 Hcur2) as IHcur2. cbn [String.length].
      destruct (doubleEscapeChars c2); [destruct (Ascii.eqb c2 newline)|];
        intros H; apply IHcur2 in H as [? ?]; split; (lia || done).
Qed.

Lemma splitWord_remainder input word remainder :
  splitWord input = inl (word, remainder) →
  (String.length remainder ≤ pred (String.length input))%nat
  ∧ quoting_after Unquoted input = quoting_after Unquoted remainder.
Proof. intros H. by eapply (splitWord_from_remainder _ input (le_n _) raw). Qed.

(** A word the scanner cannot finish: the error names what the input
    leaves open. *)
Lemma splitWord_from_error n : ∀ input,
  (String.length input ≤ n)%nat → ∀ l buf err,
  splitWord_from l buf input = inr err →
  err = open_error (label_quoting l input).
Proof.
  induction n as [|n IH]; intros input Hn l buf err.
  - destruct input; [|cbn in Hn; lia].
    destruct l; cbn; intros [= <-] || discriminate; done.
  - destruct input as [|c cur].
    { destruct l; cbn; intros [= <-] || discriminate; done. }
    cbn in Hn. assert (String.length cur ≤ n)%nat as Hcur by lia.
    pose proof (IH cur Hcur) as IHcur.
    destruct l; cbn [splitWord_from label_quoting quoting_after].
    + destruct (Ascii.eqb c singleChar); [apply IHcur|].
      destruct (Ascii.eqb c doubleChar); [apply IHcur|].
      destruct (Ascii.eqb c escapeChar); [apply IHcur|].
      destruct (splitChars c); [discriminate|apply IHcur].
    + destruct (Ascii.eqb c newline); apply IHcur.
    + destruct (Ascii.eqb c singleChar); apply IHcur.
    + destruct (Ascii.eqb c doubleChar); [apply IHcur|].
      destruct (Ascii.eqb c escapeChar); [|apply IHcur].
      destruct cur as [|c2 cur2]; [by intros [= <-]|].
      cbn in Hcur. assert (String.length cur2 ≤ n)%nat as Hcur2 by lia.
      pose proof (IH cur2 Hcur2) as IHcur2.
      destruct (doubleEscapeChars c2); [destruct (Ascii.eqb c2 newline)|]; apply IHcur2.
Qed.

Lemma quoting_after_split c next :
  splitChars c = true →
  quoting_after Unquoted (String c next) = quoting_after Unquoted next.
Proof.
  intros (E1 & E2 & E3)%splitChars_not_special.
  cbn [quoting_after]. by rewrite E1, E2, E3.
Qed.

Lemma quoting_after_escape next :
  quoting_after Unquoted (String escapeChar next)
  = match next with
    | EmptyString => Unquoted
    | String _ next2 => quoting_after Unquoted next2
    end.
Proof. reflexivity. Qed.

(** The rounds of [Split_loop] that read a word: go on with the input
    the word leaves, for which the induction hypothesis [IH] holds. *)
Local Ltac word_round IH :=
  let Hw := fresh "Hw" in
  let Hlen := fresh "Hlen" in
  let Hq := fresh "Hq" in
  match goal with
  | |- context [splitWord ?input] =>
      destruct (splitWord input) as [[? ?]|?] eqn:Hw;
      [apply splitWord_remainder in Hw as [Hlen Hq]; cbn [String.length pred] in Hlen|]
  end.

(** The length of the input is fuel enough: more fuel changes nothing. *)
Lemma Split_loop_fuel n : ∀ m input words,
  (String.length input ≤ n)%nat → (String.length input ≤ m)%nat →
  Split_loop n words input = Split_loop m words input.
Proof.
  induction n as [|n IH]; intros m input words Hn Hm.
  - destruct input; [by destruct m|cbn in Hn; lia].
  - destruct input as [|c next]; [by destruct m|].
    destruct m as [|m]; [cbn in Hm; lia|]. cbn in Hn, Hm.
    cbn [Split_loop]. destruct (splitChars c).
    { apply IH; lia. }
    destruct (Ascii.eqb c escapeChar).
    + destruct next as [|c2 next2]; [done|]. cbn in Hn, Hm.
      destruct (Ascii.eqb c2 newline); [apply IH; lia|].
      word_round IH; [apply IH; lia|done].
    + word_round IH; [apply IH; lia|done].
Qed.

Lemma Split_fuel input fuel :
  (String.length input ≤ fuel)%nat → Split_loop fuel [] input = Split input.
Proof. intros. by apply Split_loop_fuel. Qed.

(** An input that ends inside a quoted span is refused. *)
Lemma Split_loop_unbalanced n : ∀ input words,
  (String.length input ≤ n)%nat → unbalanced input →
  ∃ err, Split_loop n words input = inr err.
Proof.
  unfold unbalanced.
  induction n as [|n IH]; intros input words Hn Hunb.
  - destruct input; [done|cbn in Hn; lia].
  - destruct input as [|c next]; [done|]. cbn in Hn.
    cbn [Split_loop]. destruct (splitChars c) eqn:Es.
    { apply IH; [lia|]. by rewrite quoting_after_split in Hunb. }
    destruct (Ascii.eqb c escapeChar) eqn:Ee.
    + apply Ascii.eqb_eq in Ee as ->.
      destruct next as [|c2 next2]; [by eauto|]. cbn in Hn.
      destruct (Ascii.eqb c2 newline).
      * apply IH; [lia|]. by rewrite quoting_after_escape in Hunb.
      * word_round IH; [apply IH; [lia|congruence]|by eauto].
    + word_round IH; [apply IH; [lia|congruence]|by eauto].
Qed.

(** Whenever the splitter refuses an input, the error names what the
    input leaves open. *)
Lemma Split_loop_error n : ∀ input words err,
  (String.length input ≤ n)%nat →
  Split_loop n words input = inr err →
  err = open_error (quoting_after Unquoted input).
Proof.
  induction n as [|n IH]; intros input words err Hn.
  - destruct input; [done|cbn in Hn; lia].
  - destruct input as [|c next]; [done|]. cbn in Hn.
    cbn [Split_loop]. destruct (splitChars c) eqn:Es.
    { rewrite quoting_after_split by done. apply IH; lia. }
    destruct (Ascii.eqb c escapeChar) eqn:Ee.
    + apply Ascii.eqb_eq in Ee as ->.
      destruct next as [|c2 next2]; [by intros [= <-]|]. cbn in Hn.
      destruct (Ascii.eqb c2 newline).
      * rewrite quoting_after_escape. apply IH; lia.
      * word_round IH.
        -- rewrite Hq. apply IH; lia.
        -- intros [= <-]. by apply (splitWord_from_error _ _ (le_n _)) in Hw.
    + word_round IH.
      * rewrite Hq. apply IH; lia.
      * intros [= <-]. by apply (splitWord_from_error _ _ (le_n _)) in Hw.
Qed.

Lemma Split_loop_done fuel words : Split_loop fuel words EmptyString = inl words.
Proof. by destruct fuel. Qed.

Lemma append_cons c s t : String c s +:+ t = String c (s +:+ t).
Proof. reflexivity. Qed.

Lemma append_empty_r s : s +:+ EmptyString = s.
Proof. induction s as [|c s IH]; [done|]. by rewrite append_cons, IH. Qed.

Lemma append_str_cons buf c s : (buf +:+ str c) +:+ s = buf +:+ String c s.
Proof. induction buf as [|b buf IH]; [done|]. by rewrite !append_cons, IH. Qed.

(** Inside double quotes, bytes other than the double quote and the
    backslash are taken as they are, up to the closing quote. *)
Lemma splitWord_from_double_plain s : ∀ buf rest,
  all_chars (fun c => negb (Ascii.eqb c doubleChar) && negb (Ascii.eqb c escapeChar)) s = true →
  splitWord_from double buf (s +:+ String doubleChar rest) = splitWord_from raw (buf +:+ s) rest.
Proof.
  induction s as [|c s IH]; intros buf rest Hs.
  - change (EmptyString +:+ String doubleChar rest) with (String doubleChar rest).
    cbn [splitWord_from]. rewrite Ascii.eqb_refl. f_equal.
    symmetry. apply append_empty_r.
  - cbn [all_chars] in Hs. apply andb_true_iff in Hs as [Hc Hs].
    apply andb_true_iff in Hc as [Hc1 Hc2].
    apply negb_true_iff in Hc1, Hc2.
    rewrite append_cons. cbn [splitWord_from]. rewrite Hc1, Hc2.
    rewrite IH by done. by rewrite append_str_cons.
Qed.

(** Inside single quotes every byte but the single quote is taken as it is. *)
Lemma splitWord_from_single_plain s : ∀ buf rest,
  all_chars (fun c => negb (Ascii.eqb c singleChar)) s = true →
  splitWord_from single buf (s +:+ String singleChar rest) = splitWord_from raw (buf +:+ s) rest.
Proof.
  induction s as [|c s IH]; intros buf rest Hs.
  - change (EmptyString +:+ String singleChar rest) with (String singleChar rest).
    cbn [splitWord_from]. rewrite Ascii.eqb_refl. f_equal.
    symmetry. apply append_empty_r.
  - cbn [all_chars] in Hs. apply andb_true_iff in Hs as [Hc Hs].
    apply negb_true_iff in Hc.
    rewrite append_cons. cbn [splitWord_from]. rewrite Hc.
    rewrite IH by done. by rewrite append_str_cons.
Qed.

End ShellSplit.

(** ** Splitting what the user wrote *)

Section WrittenLine.

Implicit Types (buf rest sep leading : string) (words : list string)
  (p : piece) (w : list piece) (items : list (list piece * string)).

Lemma append_assoc s t u : (s +:+ t) +:+ u = s +:+ t +:+ u.
Proof. induction s as [|c s IH]; [done|]. by rewrite !append_cons, IH. Qed.

Lemma isSpecial_false c :
  isSpecial c = false →
  Ascii.eqb c singleChar = false ∧ Ascii.eqb c doubleChar = false
  ∧ Ascii.eqb c escapeChar = false ∧ splitChars c = false.
Proof.
  unfold isSpecial. intros H.
  apply orb_false_iff in H as [H H4]. apply orb_false_iff in H as [H H3].
  apply orb_false_iff in H as [H1 H2]. done.
Qed.

(** Bare text is taken as it is. *)
Lemma splitWord_from_bare s : ∀ buf rest,
  all_chars (fun c => negb (isSpecial c)) s = true →
  splitWord_from raw buf (s +:+ rest) = splitWord_from raw (buf +:+ s) rest.
Proof.
  induction s as [|c s IH]; intros buf rest Hs.
  - by rewrite append_empty_r.
  - cbn [all_chars] in Hs. apply andb_true_iff in Hs as [Hc Hs].
    apply negb_true_iff, isSpecial_false in Hc as (E1 & E2 & E3 & E4).
    rewrite append_cons. cbn [splitWord_from]. rewrite E1, E2, E3, E4.
    rewrite IH by done. by rewrite append_str_cons.
Qed.

(** The scanner reads a piece as the text it stands for. *)
Lemma splitWord_from_piece p buf rest :
  piece_ok p = true →
  splitWord_from raw buf (piece_text p +:+ rest)
  = splitWord_from raw (buf +:+ piece_value p) rest.
Proof.
  destruct p as [s|c|s|s]; cbn [piece_ok piece_text piece_value].
  - intros [_ Hs]%andb_true_iff. by apply splitWord_from_bare.
  - intros Hc%negb_true_iff.
    change (String escapeChar (str c) +:+ rest) with (String escapeChar (String c rest)).
    cbn [splitWord_from].
    change (Ascii.eqb escapeChar singleChar) with false.
    change (Ascii.eqb escapeChar doubleChar) with false.
    by rewrite Ascii.eqb_refl, Hc.
  - intros Hs. rewrite append_cons, append_assoc.
    change (str singleChar +:+ rest) with (String singleChar rest).
    cbn [splitWord_from]. rewrite Ascii.eqb_refl.
    by apply splitWord_from_single_plain.
  - intros Hs. rewrite append_cons, append_assoc.
    change (str doubleChar +:+ rest) with (String doubleChar rest).
    cbn [splitWord_from]. change (Ascii.eqb doubleChar singleChar) with false.
    rewrite Ascii.eqb_refl. by apply splitWord_from_double_plain.
Qed.

Lemma splitWord_from_word w : ∀ buf rest,
  forallb piece_ok w = true →
  splitWord_from raw buf (word_text w +:+ rest)
  = splitWord_from raw (buf +:+ word_value w) rest.
Proof.
  induction w as [|p w IH]; intros buf rest Hw.
  - by rewrite append_empty_r.
  - cbn [forallb] in Hw. apply andb_true_iff in Hw as [Hp Hw].
    cbn [word_text word_value].
    by rewrite append_assoc, splitWord_from_piece, IH, append_assoc.
Qed.

(** A word starts with a character that is no separator, and when that
    is a backslash, the next one is no newline. *)
Lemma word_text_head w rest :
  word_ok w = true →
  ∃ c tl, word_text w +:+ rest = String c tl
          ∧ splitChars c = false
          ∧ (Ascii.eqb c escapeChar = true →
             ∃ c2 tl2, tl = String c2 tl2 ∧ Ascii.eqb c2 newline = false).
Proof.
  destruct w as [|p w]; [done|]. cbn [word_ok forallb word_text].
  intros [Hp _]%andb_true_iff. rewrite append_assoc.
  destruct p as [s|c|s|s]; cbn [piece_ok piece_text] in *.
  - apply andb_true_iff in Hp as [Hne Hs]. destruct s as [|c s]; [done|].
    cbn [all_chars] in Hs. apply andb_true_iff in Hs as [Hc _].
    apply negb_true_iff, isSpecial_false in Hc as (_ & _ & E3 & E4).
    rewrite append_cons. eexists _, _. split_and!; [done..|]. by rewrite E3.
  - apply negb_true_iff in Hp.
    change (String escapeChar (str c) +:+ word_text w +:+ rest)
      with (String escapeChar (String c (word_text w +:+ rest))).
    eexists _, _. split_and!; [done..|]. intros _. by eauto.
  - rewrite append_cons. eexists _, _. split_and!; done.
  - rewrite append_cons. eexists _, _. split_and!; done.
Qed.

(** Rounds of the loop, with fuel to spare. *)
Lemma Split_loop_seps sep : ∀ n words rest,
  all_chars splitChars sep = true →
  (String.length (sep +:+ rest) ≤ n)%nat →
  Split_loop n words (sep +:+ rest) = Split_loop (String.length rest) words rest.
Proof.
  induction sep as [|c sep IH]; intros n words rest Hsep Hn.
  - by apply Split_loop_fuel.
  - cbn [all_chars] in Hsep. apply andb_true_iff in Hsep as [Hc Hsep].
    rewrite append_cons in *. cbn [String.length] in Hn.
    destruct n as [|n]; [lia|]. cbn [Split_loop]. rewrite Hc.
    apply IH; [done|lia].
Qed.

Lemma Split_loop_word n words c tl word remainder :
  (String.length (String c tl) ≤ n)%nat →
  splitChars c = false →
  (Ascii.eqb c escapeChar = true →
   ∃ c2 tl2, tl = String c2 tl2 ∧ Ascii.eqb c2 newline = false) →
  splitWord (String c tl) = inl (word, remainder) →
  Split_loop n words (String c tl)
  = Split_loop (String.length remainder) (words ++ [word]) remainder.
Proof.
  intros Hn Hc Hesc Hword.
  pose proof (splitWord_remainder _ _ _ Hword) as [Hlen _].
  cbn [String.length pred] in Hn, Hlen.
  destruct n as [|n]; [lia|]. cbn [Split_loop]. rewrite Hc.
  destruct (Ascii.eqb c escapeChar).
  - destruct Hesc as (c2 & tl2 & -> & Hc2); [done|]. rewrite Hc2, Hword.
    apply Split_loop_fuel; lia.
  - rewrite Hword. apply Split_loop_fuel; lia.
Qed.

(** The splitter gives back, word by word, the text each word stands
    for. *)
Lemma Split_loop_line items : ∀ words leading,
  all_chars splitChars leading = true →
  line_ok items = true →
  Split_loop (String.length (leading +:+ line_text items)) words (leading +:+ line_text items)
  = inl (words ++ line_values items).
Proof.
  induction items as [|[w sep] items IH]; intros words leading Hleading Hok;
    rewrite (Split_loop_seps _ _ _ _ Hleading (le_n _)).
  - cbn. by rewrite app_nil_r.
  - cbn [line_ok] in Hok.
    apply andb_true_iff in Hok as [Hok Hitems]. apply andb_true_iff in Hok as [Hok Hlast].
    apply andb_true_iff in Hok as [Hw Hsep].
    cbn [line_text line_values map fst].
    destruct (word_text_head w (sep +:+ line_text items) Hw) as (c & tl & Htext & Hc & Hesc).
    assert (forallb piece_ok w = true) as Hpieces by (by destruct w).
    assert (splitWord (String c tl)
            = splitWord_from raw (word_value w) (sep +:+ line_text items)) as Hword.
    { unfold splitWord. by rewrite <- Htext, splitWord_from_word. }
    rewrite Htext.
    destruct sep as [|s0 sep].
    + destruct items as [|item items]; [|done].
      change (EmptyString +:+ line_text []) with EmptyString in Hword.
      cbn [splitWord_from] in Hword.
      rewrite (Split_loop_word _ _ _ _ _ _ (le_n _) Hc Hesc Hword).
      by rewrite Split_loop_done.
    + cbn [all_chars] in Hsep. apply andb_true_iff in Hsep as [Hs0 Hsep].
      pose proof (splitChars_not_special _ Hs0) as (E1 & E2 & E3).
      rewrite append_cons in Hword. cbn [splitWord_from] in Hword.
      rewrite E1, E2, E3, Hs0 in Hword.
      rewrite (Split_loop_word _ _ _ _ _ _ (le_n _) Hc Hesc Hword).
      rewrite (IH _ _ Hsep Hitems). by rewrite <- app_assoc.
Qed.

Lemma Split_line leading items :
  all_chars splitChars leading = true →
  line_ok items = true →
  Split (leading +:+ line_text items) = inl (line_values items).
Proof. intros. unfold Split. by rewrite Split_loop_line. Qed.

(** [parseCarthageOptions] returns what the splitter returns. *)
Lemma parseCarthageOptions_Split (config : Config) :
  parseCarthageOptions config
  = if String.eqb (CarthageOptions config) EmptyString then ([], Return [])
    else match Split (CarthageOptions config) with
         | inl options => ([], Return options)
         | inr _ => (split_failure_log config, Exit 1)
         end.
Proof.
  unfold parseCarthageOptions.
  destruct (String.eqb (CarthageOptions config) EmptyString); [done|].
  by destruct (Split (CarthageOptions config)).
Qed.

Example Split_line_mixed :
  Split (" " +:+ line_text [ ([Bare "a"; InSingle "b c"; InDouble "d  e"], "  ");
                            ([Backslash " "; Bare "x"], EmptyString) ])
  = inl ["ab cd  e"; " x"].
Proof. by apply Split_line. Qed.

End WrittenLine.

(** C5: [parseCarthageOptions] returns exactly the tokens the shell
    splitter finds in the option string (none for the empty string), and
    the splitter follows the shell quoting rules: for every option
    string written as words with separators between them, each word made
    of bare text, backslashed characters, single-quoted and double-quoted
    stretches, the tokens are the texts the words stand for, so that a
    quoted stretch stays inside one token whatever spaces it holds.  In
    particular a double-quoted string without double quote or backslash,
    and a single-quoted string without single quote, split to the one
    token between the quotes.  The string
    [--platform iOS --project-directory] followed by [My Project] in
    double quotes, which is such an option string, parses to the four
    tokens [--platform], [iOS], [--project-directory], [My Project],
    which [parseCarthageOptions] returns, and on which [parseProjectDir]
    returns [My Project]. *)
Theorem parseCarthageOptions_quoted_tokens (config : Config) (d : string) :
  parseCarthageOptions config
  = (if String.eqb (CarthageOptions config) EmptyString then ([], Return [])
     else match Split (CarthageOptions config) with
          | inl options => ([], Return options)
          | inr _ => (split_failure_log config, Exit 1)
          end)
  ∧ (∀ leading items,
       all_chars splitChars leading = true → line_ok items = true →
       Split (leading +:+ line_text items) = inl (line_values items)
       ∧ (CarthageOptions config = leading +:+ line_text items →
          parseCarthageOptions config = ([], Return (line_values items))))
  ∧ (∀ s, all_chars (fun c => negb (Ascii.eqb c doubleChar) && negb (Ascii.eqb c escapeChar)) s = true →
        Split (str doubleChar +:+ s +:+ str doubleChar) = inl [s])
  ∧ (∀ s, all_chars (fun c => negb (Ascii.eqb c singleChar)) s = true →
          Split (str singleChar +:+ s +:+ str singleChar) = inl [s])
  ∧ (line_text scenario_line = scenario_options ∧ line_ok scenario_line = true
     ∧ line_values scenario_line = scenario_tokens)
  ∧ Split scenario_options = inl scenario_tokens
  ∧ (CarthageOptions config = scenario_options →
     parseCarthageOptions config = ([], Return scenario_tokens))
  ∧ parseProjectDir d scenario_tokens = (found_log "My Project", Return "My Project").
Proof.
  split_and!.
  - apply parseCarthageOptions_Split.
  - intros leading items Hleading Hok.
    pose proof (Split_line leading items Hleading Hok) as Hsplit.
    split; [done|]. intros Hopts.
    rewrite parseCarthageOptions_Split, Hopts, Hsplit.
    destruct (String.eqb_spec (leading +:+ line_text items) EmptyString) as [Hnil|_]; [|done].
    rewrite Hnil in Hsplit. by injection Hsplit as <-.
  - intros s Hs. unfold Split.
    change (str doubleChar +:+ s +:+ str doubleChar)
      with (String doubleChar (s +:+ String doubleChar EmptyString)).
    cbn [String.length Split_loop]. unfold splitWord.
    change (splitChars doubleChar) with false.
    change (Ascii.eqb doubleChar escapeChar) with false.
    cbn [splitWord_from]. change (Ascii.eqb doubleChar singleChar) with false.
    rewrite Ascii.eqb_refl, splitWord_from_double_plain by done.
    cbn [splitWord_from]. by rewrite Split_loop_done.
  - intros s Hs. unfold Split.
    change (str singleChar +:+ s +:+ str singleChar)
      with (String singleChar (s +:+ String singleChar EmptyString)).
    cbn [String.length Split_loop]. unfold splitWord.
    change (splitChars singleChar) with false.
    change (Ascii.eqb singleChar escapeChar) with false.
    cbn [splitWord_from].
    rewrite Ascii.eqb_refl, splitWord_from_single_plain by done.
    cbn [splitWord_from]. by rewrite Split_loop_done.
  - reflexivity.
  - reflexivity.
  - reflexivity.
  - reflexivity.
  - intros Hopts. unfold parseCarthageOptions. by rewrite Hopts.
  - reflexivity.
Qed.

Lemma parseCarthageOptions_split_error (config : Config) err :
  Split (CarthageOptions config) = inr err →
  parseCarthageOptions config = (split_failure_log config, Exit 1).
Proof.
  intros Herr. unfold parseCarthageOptions. rewrite Herr.
  destruct (String.eqb_spec (CarthageOptions config) EmptyString) as [Hnil|_]; [|done].
  by rewrite Hnil in Herr.
Qed.

(** C7: an option string with unbalanced shell quoting is refused by the
    splitter, with the error for the quote left open, and never yields a
    token list: [parseCarthageOptions] logs the failure and ends the
    process with status 1, so that a run whose inputs carry such a string
    ends with status 1 without ever reaching the runner. *)
Theorem parseCarthageOptions_unbalanced_fatal (V : Type) (w : World V) (configs : Config) :
  unbalanced (CarthageOptions configs) →
  Split (CarthageOptions configs)
  = inr (open_error (quoting_after Unquoted (CarthageOptions configs)))
  ∧ open_error (quoting_after Unquoted (CarthageOptions configs)) ≠ UnterminatedEscapeError
  ∧ parseCarthageOptions configs = (split_failure_log configs, Exit 1)
  ∧ (stepconf_Parse w = inl configs →
     result (main w) = Exit 1 ∧ filter is_runner_run (trace (main w)) = []).
Proof.
  intros Hunb.
  destruct (Split_loop_unbalanced _ (CarthageOptions configs) [] (le_n _) Hunb) as [err Herr].
  pose proof (Split_loop_error _ _ _ _ (le_n _) Herr) as Hopen.
  fold (Split (CarthageOptions configs)) in Herr.
  pose proof (parseCarthageOptions_split_error _ _ Herr) as Hfail.
  split_and!.
  - by rewrite Herr, Hopen.
  - unfold unbalanced in Hunb. by destruct (quoting_after Unquoted (CarthageOptions configs)).
  - done.
  - intros Hparse. unfold main. rewrite Hparse.
    destruct (getCarthageVersion _ _) as [v|e]; [|done].
    destruct (getSwiftVersion _) as [out [e|]]; [done|].
    cbn -[parseCarthageOptions parseXCConfigPath parseProjectDir strings_Replace].
    rewrite Hfail. done.
Qed.

Lemma parseCarthageOptions_unbalanced_fatal_witness :
  Split (CarthageOptions unbalanced_config)
  = inr (open_error (quoting_after Unquoted (CarthageOptions unbalanced_config)))
  ∧ open_error (quoting_after Unquoted (CarthageOptions unbalanced_config))
    ≠ UnterminatedEscapeError
  ∧ parseCarthageOptions unbalanced_config = (split_failure_log unbalanced_config, Exit 1)
  ∧ (stepconf_Parse unbalanced_world = inl unbalanced_config →
     result (main unbalanced_world) = Exit 1
     ∧ filter is_runner_run (trace (main unbalanced_world)) = []).
Proof.
  apply (parseCarthageOptions_unbalanced_fatal Version unbalanced_world unbalanced_config).
  unfold unbalanced. vm_compute. discriminate.
Defined.

(** ** The run as a whole *)

Section Run.

Context {V : Type}.
Implicit Types (w : World V) (configs : Config).

Lemma parseCarthageOptions_cases configs :
  (∃ args, parseCarthageOptions configs = ([], Return args))
  ∨ parseCarthageOptions configs = (split_failure_log configs, Exit 1).
Proof.
  unfold parseCarthageOptions.
  destruct (negb _); [|by eauto].
  destruct (Split _); by eauto.
Qed.

(** [parseXCConfigPath] always returns to its caller, and what it logs
    is at most the resolution of the explicit path and the warning. *)
Lemma parseXCConfigPath_cases pathFromStepInput pathFromEnv (fileProvider : FileProvider) :
  ∃ tr path err,
    parseXCConfigPath pathFromStepInput pathFromEnv fileProvider = (tr, Return (path, err))
    ∧ (tr = [] ∨ tr = [FileProviderLocalPath pathFromStepInput]
       ∨ ∃ msg, tr = [FileProviderLocalPath pathFromStepInput; LogWarnf msg]).
Proof.
  destruct (String.eqb_spec pathFromStepInput EmptyString) as [->|Hin].
  - rewrite parseXCConfigPath_no_input. by eauto 10.
  - destruct (fileProvider pathFromStepInput) as [localPath [e|]] eqn:Hfp.
    + rewrite (parseXCConfigPath_failed _ _ _ _ _ Hin Hfp). by eauto 10.
    + rewrite (parseXCConfigPath_resolved _ _ _ _ Hin Hfp).
      destruct (negb _); [destruct (negb _)|]; by eauto 10.
Qed.

(** X2: a run ends in one of two ways: it returns, having called the
    runner exactly once; or it ends the process with status 1, and the
    last thing it did was to log an error line. *)
Theorem main_exit_behaviour w :
  (result (main w) = Return tt
   ∧ length (filter is_runner_run (trace (main w))) = 1%nat)
  ∨ (result (main w) = Exit 1
     ∧ ∃ msg, last (trace (main w)) = Some (LogErrorf msg)).
Proof.
  unfold main.
  destruct (stepconf_Parse w) as [configs|e]; [|right; by eauto].
  destruct (getCarthageVersion _ _) as [v|e]; [|right; by eauto].
  destruct (getSwiftVersion _) as [out [e|]]; [right; by eauto|].
  destruct (parseCarthageOptions_cases configs) as [[args Hargs]|Hargs];
    cbn -[parseCarthageOptions parseXCConfigPath parseProjectDir strings_Replace];
    rewrite Hargs; [|right; by eauto].
  destruct (parseXCConfigPath_cases (Xcconfig configs) (XcconfigFromEnv configs)
              (fileProvider_LocalPath w)) as (tr & path & err & Hxc & Htr).
  rewrite Hxc.
  destruct (parseProjectDir_loop_result (SourceDir configs) false args)
    as [Hdir|(dir & _ & _ & Hdir)];
    fold (parseProjectDir (SourceDir configs) args) in Hdir;
    destruct err as [e|];
    destruct Htr as [->|[->|[msg ->]]];
    cbn -[parseProjectDir strings_Replace];
    try (right; by eauto);
    rewrite Hdir; cbn -[strings_Replace];
    destruct (runner_Run w _ _ _ _ _ _); cbn; by eauto.
Qed.

Lemma getCarthageVersion_loop_some (NewVersion' : string → option V) outLines v :
  getCarthageVersion_loop NewVersion' outLines = Some v →
  ∃ pre outLine post,
    outLines = pre ++ outLine :: post
    ∧ Forall (fun l => NewVersion' l = None) pre
    ∧ NewVersion' outLine = Some v.
Proof.
  induction outLines as [|l ls IH]; [discriminate|]. cbn.
  destruct (NewVersion' l) as [v'|] eqn:Hl.
  - intros [= ->]. by exists [], l, ls.
  - intros (pre & outLine & post & -> & Hpre & Hline)%IH.
    exists (l :: pre), outLine, post. split_and!; [done| |done].
    by constructor.
Qed.

Lemma getCarthageVersion_loop_failed (NewVersion' : string → option V) outLines :
  getCarthageVersion_loop NewVersion' outLines = None →
  Forall (fun l => NewVersion' l = None) outLines.
Proof.
  induction outLines as [|l ls IH]; [done|]. cbn.
  destruct (NewVersion' l) eqn:Hl; [discriminate|].
  intros H. constructor; auto.
Qed.

(** X3: what [getCarthageVersion] returns is accounted for by the probe:
    an error of the command is returned as it is; a version is the parse
    of a line of the output before which no line parses; the parse error
    is returned only when no line parses, and carries the output. *)
Theorem getCarthageVersion_sound (NewVersion' : string → option V)
    (out : string) (err : error) :
  getCarthageVersion NewVersion' (out, Some err) = inr err
  ∧ (∀ v, getCarthageVersion NewVersion' (out, None) = inl v →
       ∃ pre outLine post,
         strings_Split out newline = pre ++ outLine :: post
         ∧ Forall (fun l => NewVersion' l = None) pre
         ∧ NewVersion' outLine = Some v)
  ∧ (∀ e, getCarthageVersion NewVersion' (out, None) = inr e →
       Forall (fun l => NewVersion' l = None) (strings_Split out newline)
       ∧ e = "failed to parse `$ carthage version` output: " +:+ out).
Proof.
  split_and!; [reflexivity|..]; unfold getCarthageVersion.
  - intros v. destruct (getCarthageVersion_loop _ _) as [v'|] eqn:Hloop; [|discriminate].
    intros [= ->]. by apply getCarthageVersion_loop_some.
  - intros e. destruct (getCarthageVersion_loop _ _) as [v'|] eqn:Hloop; [discriminate|].
    intros [= <-]. split; [|done]. by apply getCarthageVersion_loop_failed.
Qed.

End Run.

(** ** The stages of a run *)

Section Stages.

Context {V : Type}.
Implicit Types (w : World V) (configs : Config) (v : V).

(** [main], stage by stage: what is logged up to each stage, and how a
    failure of the stage ends the run. *)
Lemma main_stages w :
  main w
  = match stepconf_Parse w with
    | inr err => ([LogErrorf ("Could not create config: " +:+ err)], Exit 1)
    | inl configs =>
      match getCarthageVersion (version_NewVersion w) (carthage_version_cmd w) with
      | inr err =>
          (start_log configs
           ++ [LogErrorf ("Failed to get carthage version, error: " +:+ err)], Exit 1)
      | inl v =>
        match swift_version_cmd w with
        | (_, Some err) =>
            (start_log configs
             ++ [ LogPrintf ("- CarthageVersion: " +:+ version_String w v);
                  LogErrorf ("Failed to get swift version, error: " +:+ err) ], Exit 1)
        | (out, None) =>
          match parseCarthageOptions configs with
          | (tr1, Exit code) =>
              (environment_log configs (version_String w v) out ++ tr1, Exit code)
          | (tr1, Return args) =>
            match parseXCConfigPath (Xcconfig configs) (XcconfigFromEnv configs)
                    (fileProvider_LocalPath w) with
            | (tr2, Exit code) =>
                (environment_log configs (version_String w v) out ++ tr1 ++ tr2, Exit code)
            | (tr2, Return (_, Some err)) =>
                (environment_log configs (version_String w v) out ++ tr1 ++ tr2
                 ++ [LogErrorf ("Failed to get xcconfig file, error: " +:+ err)], Exit 1)
            | (tr2, Return (path, None)) =>
              match parseProjectDir (SourceDir configs) args with
              | (tr3, Exit code) =>
                  (environment_log configs (version_String w v) out ++ tr1 ++ tr2 ++ tr3,
                   Exit code)
              | (tr3, Return dir) =>
                  (environment_log configs (version_String w v) out ++ tr1 ++ tr2 ++ tr3
                   ++ RunnerRun (CarthageCommand configs) args path dir out
                      :: match runner_Run w (CarthageCommand configs) args
                                 (GithubAccessToken configs) path dir out with
                         | None => []
                         | Some err => [LogErrorf ("Failed to execute step: " +:+ err)]
                         end,
                   match runner_Run w (CarthageCommand configs) args
                           (GithubAccessToken configs) path dir out with
                   | None => Return tt
                   | Some err => Exit 1
                   end)
              end
            end
          end
        end
      end
    end.
Proof.
  unfold main, getSwiftVersion.
  destruct (stepconf_Parse w) as [configs|e]; [|reflexivity].
  destruct (getCarthageVersion _ _) as [v|e]; [|reflexivity].
  destruct (swift_version_cmd w) as [out [e|]]; [reflexivity|].
  cbn -[parseCarthageOptions parseXCConfigPath parseProjectDir strings_Replace].
  destruct (parseCarthageOptions configs) as [tr1 [args|code]]; [|reflexivity].
  cbn -[parseXCConfigPath parseProjectDir strings_Replace].
  destruct (parseXCConfigPath _ _ _) as [tr2 [[path [e|]]|code]];
    cbn -[parseProjectDir strings_Replace];
    [by rewrite ?app_nil_r, <- ?app_assoc| |by rewrite ?app_nil_r].
  destruct (parseProjectDir _ _) as [tr3 [dir|code]]; cbn -[strings_Replace];
    [|by rewrite ?app_nil_r, <- ?app_assoc].
  destruct (runner_Run w _ _ _ _ _ _); cbn -[strings_Replace];
    by rewrite ?app_nil_r, <- ?app_assoc.
Qed.

(** [parseXCConfigPath] in full, by what the file provider answers. *)
Lemma parseXCConfigPath_table pathFromStepInput pathFromEnv (fileProvider : FileProvider) :
  parseXCConfigPath pathFromStepInput pathFromEnv fileProvider
  = if String.eqb pathFromStepInput EmptyString then ([], Return (pathFromEnv, None))
    else match fileProvider pathFromStepInput with
         | (_, Some err) =>
             ([FileProviderLocalPath pathFromStepInput], Return (EmptyString, Some err))
         | (localPath, None) =>
             (FileProviderLocalPath pathFromStepInput
              :: (if nonEmpty localPath && nonEmpty pathFromEnv then [xcconfig_warning] else []),
              Return (first_non_empty localPath pathFromEnv, None))
         end.
Proof.
  destruct (String.eqb_spec pathFromStepInput EmptyString) as [->|Hin].
  - apply parseXCConfigPath_no_input.
  - destruct (fileProvider pathFromStepInput) as [localPath [e|]] eqn:Hfp.
    + by rewrite (parseXCConfigPath_failed _ _ _ _ _ Hin Hfp).
    + rewrite (parseXCConfigPath_resolved _ _ _ _ Hin Hfp).
      unfold first_non_empty, nonEmpty.
      destruct (String.eqb_spec pathFromEnv EmptyString) as [->|_];
        destruct (String.eqb_spec localPath EmptyString) as [->|_]; reflexivity.
Qed.

(** X4: [parseXCConfigPath] never ends the process.  When the explicit
    path is empty or resolves without error, the path returned is the
    resolved path unless that is empty, else the environment path, which
    is returned as it is, be it empty; and the warning is logged, once,
    exactly when the resolved path and the environment path are both
    non-empty. *)
Theorem parseXCConfigPath_first_non_empty pathFromStepInput pathFromEnv
    (fileProvider : FileProvider) :
  (∃ path err, result (parseXCConfigPath pathFromStepInput pathFromEnv fileProvider)
               = Return (path, err))
  ∧ ∀ localPath,
      (if String.eqb pathFromStepInput EmptyString then (EmptyString, None)
       else fileProvider pathFromStepInput) = (localPath, None) →
      result (parseXCConfigPath pathFromStepInput pathFromEnv fileProvider)
      = Return (first_non_empty localPath pathFromEnv, None)
      ∧ warnings (parseXCConfigPath pathFromStepInput pathFromEnv fileProvider)
        = if nonEmpty localPath && nonEmpty pathFromEnv then [xcconfig_warning] else [].
Proof.
  rewrite parseXCConfigPath_table. split.
  - destruct (String.eqb pathFromStepInput EmptyString); [by eauto|].
    destruct (fileProvider pathFromStepInput) as [localPath [e|]]; by eauto.
  - intros localPath.
    destruct (String.eqb pathFromStepInput EmptyString).
    + intros [= <-]. done.
    + intros ->. split; [done|].
      unfold warnings, trace. cbn [fst]. rewrite filter_cons_False by (cbn; auto).
      by destruct (nonEmpty localPath && nonEmpty pathFromEnv).
Qed.

(** What the three parsing stages can log holds no call of the runner. *)
Lemma parseCarthageOptions_returns configs args :
  result (parseCarthageOptions configs) = Return args →
  parseCarthageOptions configs = ([], Return args).
Proof.
  destruct (parseCarthageOptions_cases configs) as [[args' ->]| ->]; [|discriminate].
  by intros [= ->].
Qed.

Lemma parseProjectDir_returns d args dir :
  result (parseProjectDir d args) = Return dir →
  parseProjectDir d args = ([], Return dir) ∨ parseProjectDir d args = (found_log dir, Return dir).
Proof.
  destruct (parseProjectDir_loop_result d false args) as [H|(v & _ & _ & H)];
    fold (parseProjectDir d args) in H; rewrite H; intros [= ->]; auto.
Qed.

Lemma parseXCConfigPath_returns pathFromStepInput pathFromEnv (fileProvider : FileProvider) path :
  result (parseXCConfigPath pathFromStepInput pathFromEnv fileProvider) = Return (path, None) →
  ∃ tr, parseXCConfigPath pathFromStepInput pathFromEnv fileProvider = (tr, Return (path, None))
        ∧ filter is_runner_run tr = [].
Proof.
  rewrite parseXCConfigPath_table.
  destruct (String.eqb pathFromStepInput EmptyString); [intros [= ->]; by eauto|].
  destruct (fileProvider pathFromStepInput) as [localPath [e|]]; [discriminate|].
  cbn [result snd]. intros [= <-]. eexists. split; [done|].
  by destruct (nonEmpty localPath && nonEmpty pathFromEnv).
Qed.

(** X5: when every stage before it succeeds, the runner is called once,
    with the command of the step inputs, the option tokens as
    [parseCarthageOptions] returned them (the project-directory flag and
    its value are not stripped), the xcconfig path of
    [parseXCConfigPath], the directory of [parseProjectDir] and the Swift
    banner as the probe gave it; the run returns when the runner
    succeeds and ends with status 1 when it fails. *)
Theorem main_runner_inputs w configs v out args path dir :
  stepconf_Parse w = inl configs →
  getCarthageVersion (version_NewVersion w) (carthage_version_cmd w) = inl v →
  swift_version_cmd w = (out, None) →
  result (parseCarthageOptions configs) = Return args →
  result (parseXCConfigPath (Xcconfig configs) (XcconfigFromEnv configs)
            (fileProvider_LocalPath w)) = Return (path, None) →
  result (parseProjectDir (SourceDir configs) args) = Return dir →
  filter is_runner_run (trace (main w))
  = [RunnerRun (CarthageCommand configs) args path dir out]
  ∧ result (main w)
    = match runner_Run w (CarthageCommand configs) args (GithubAccessToken configs)
              path dir out with
      | None => Return tt
      | Some _ => Exit 1
      end.
Proof.
  intros Hconf Hver Hswift Hopts%parseCarthageOptions_returns
    (tr2 & Hxc & Htr2)%parseXCConfigPath_returns Hdir%parseProjectDir_returns.
  rewrite main_stages, Hconf, Hver, Hswift, Hopts, Hxc.
  unfold trace, result. cbn [fst snd].
  destruct Hdir as [-> | ->]; cbn [fst snd];
    rewrite !filter_app, Htr2; (split; [|done]);
    by destruct (runner_Run w _ _ _ _ _ _).
Qed.

(** Membership of an event in a trace written out as appends and
    conses: the cases that the constructors rule out are closed. *)
Local Ltac trace_cases H :=
  repeat first
    [ apply elem_of_nil in H; destruct H
    | apply elem_of_app in H as [H|H]
    | apply elem_of_cons in H as [H|H]; [try discriminate H|] ].

(** X6: the file provider is asked to resolve a path only by a run whose
    step inputs were read, whose two probes answered and whose options
    were split, and only for the explicit xcconfig input, which is then
    not empty: no resolution (and so no download) happens for the
    environment path or before an earlier stage has failed. *)
Theorem main_resolves_after_parsing w p :
  FileProviderLocalPath p ∈ trace (main w) →
  ∃ configs v out args,
    stepconf_Parse w = inl configs
    ∧ getCarthageVersion (version_NewVersion w) (carthage_version_cmd w) = inl v
    ∧ swift_version_cmd w = (out, None)
    ∧ parseCarthageOptions configs = ([], Return args)
    ∧ p = Xcconfig configs ∧ p ≠ EmptyString.
Proof.
  rewrite main_stages. unfold trace, environment_log, start_log.
  destruct (stepconf_Parse w) as [configs|e]; [|intros H; by trace_cases H].
  destruct (getCarthageVersion _ _) as [v|e]; [|intros H; by trace_cases H].
  destruct (swift_version_cmd w) as [out [e|]]; [intros H; by trace_cases H|].
  destruct (parseCarthageOptions_cases configs) as [[args Ho]|Ho]; rewrite Ho;
    [|unfold split_failure_log; intros H; by trace_cases H].
  rewrite parseXCConfigPath_table.
  destruct (parseProjectDir_loop_result (SourceDir configs) false args)
    as [Hdir|(dir & _ & _ & Hdir)];
    fold (parseProjectDir (SourceDir configs) args) in Hdir; rewrite Hdir;
    unfold found_log;
    (destruct (String.eqb_spec (Xcconfig configs) EmptyString) as [Hnil|Hne];
     [|destruct (fileProvider_LocalPath w (Xcconfig configs)) as [localPath [e|]];
       [|destruct (nonEmpty localPath && nonEmpty (XcconfigFromEnv configs))]]);
    try match goal with
        | |- context [runner_Run w ?c ?a ?t ?x ?d ?s] => destruct (runner_Run w c a t x d s)
        end;
    cbn [fst]; unfold xcconfig_warning; intros H; trace_cases H;
    try (injection H as ->; by eauto 10).
Qed.

(** X7: a run without options and without xcconfig paths calls no file
    provider and runs the runner in the source directory with no
    arguments and no xcconfig. *)
Theorem main_without_options w configs v out :
  stepconf_Parse w = inl configs →
  getCarthageVersion (version_NewVersion w) (carthage_version_cmd w) = inl v →
  swift_version_cmd w = (out, None) →
  CarthageOptions configs = EmptyString →
  Xcconfig configs = EmptyString →
  XcconfigFromEnv configs = EmptyString →
  trace (main w)
  = environment_log configs (version_String w v) out
    ++ RunnerRun (CarthageCommand configs) [] EmptyString (SourceDir configs) out
       :: match runner_Run w (CarthageCommand configs) [] (GithubAccessToken configs)
                  EmptyString (SourceDir configs) out with
          | None => []
          | Some err => [LogErrorf ("Failed to execute step: " +:+ err)]
          end.
Proof.
  intros Hconf Hver Hswift Hopts Hxc Henv.
  rewrite main_stages, Hconf, Hver, Hswift.
  unfold parseCarthageOptions. rewrite Hopts, Hxc, Henv. reflexivity.
Qed.

Lemma all_chars_app (p : ascii → bool) s t :
  all_chars p (s +:+ t) = all_chars p s && all_chars p t.
Proof.
  induction s as [|c s IH]; [done|].
  rewrite append_cons. cbn [all_chars]. by rewrite IH, andb_assoc.
Qed.

(** Replacing every [old] by a text without [old] leaves no [old]. *)
Lemma strings_Replace_no_old s old new :
  all_chars (fun c => negb (Ascii.eqb c old)) new = true →
  all_chars (fun c => negb (Ascii.eqb c old)) (strings_Replace s old new) = true.
Proof.
  intros Hnew. induction s as [|c s IH]; [done|]. cbn [strings_Replace].
  destruct (Ascii.eqb c old) eqn:Hc.
  - by rewrite all_chars_app, Hnew, IH.
  - cbn [all_chars]. by rewrite Hc, IH.
Qed.

(** X8: once the step inputs are read and both probes have answered,
    the run logs the Swift banner on one line, every newline of it
    replaced; it does so before any path is resolved and before the
    runner is called; and the runner, when it comes to run, gets the
    banner as the probe gave it. *)
Theorem main_swift_banner w configs v out :
  stepconf_Parse w = inl configs →
  getCarthageVersion (version_NewVersion w) (carthage_version_cmd w) = inl v →
  swift_version_cmd w = (out, None) →
  (∃ before after,
     trace (main w)
     = before ++ LogPrintf ("- SwiftVersion: " +:+ strings_Replace out newline "- ") :: after
     ∧ filter is_resolution before = [] ∧ filter is_runner_run before = [])
  ∧ no_newline (strings_Replace out newline "- ") = true
  ∧ ∀ command args xcconfig dir swiftVersion,
      RunnerRun command args xcconfig dir swiftVersion ∈ trace (main w) →
      swiftVersion = out.
Proof.
  intros Hconf Hver Hswift. rewrite main_stages, Hconf, Hver, Hswift.
  unfold trace, environment_log, start_log.
  destruct (parseCarthageOptions_cases configs) as [[args Ho]|Ho]; rewrite Ho.
  2: { split_and!.
       - eexists [_; _; _; _; _], _. split_and!; reflexivity.
       - by apply strings_Replace_no_old.
       - unfold split_failure_log. intros ????? H. by trace_cases H. }
  rewrite parseXCConfigPath_table.
  destruct (parseProjectDir_loop_result (SourceDir configs) false args)
    as [Hdir|(dir & _ & _ & Hdir)];
    fold (parseProjectDir (SourceDir configs) args) in Hdir; rewrite Hdir;
    unfold found_log;
    (destruct (String.eqb_spec (Xcconfig configs) EmptyString) as [Hnil|Hne];
     [|destruct (fileProvider_LocalPath w (Xcconfig configs)) as [localPath [e|]];
       [|destruct (nonEmpty localPath && nonEmpty (XcconfigFromEnv configs))]]);
    try match goal with
        | |- context [runner_Run w ?c ?a ?t ?x ?d ?s] => destruct (runner_Run w c a t x d s)
        end;
    cbn [fst]; unfold xcconfig_warning;
    (split_and!;
     [eexists [_; _; _; _; _], _; split_and!; reflexivity
     |by apply strings_Replace_no_old
     |intros ????? H; trace_cases H; try (by injection H)]).
Qed.

(** X13: a run returns (exit status 0) only when every stage succeeded:
    the step inputs were read, a version was found in the probe output,
    the Swift probe answered, the options were split, the xcconfig path
    was settled without error, and the runner, called with these,
    returned no error. *)
Theorem main_returns_only_on_success w :
  result (main w) = Return tt →
  ∃ configs v out args path dir,
    stepconf_Parse w = inl configs
    ∧ getCarthageVersion (version_NewVersion w) (carthage_version_cmd w) = inl v
    ∧ swift_version_cmd w = (out, None)
    ∧ result (parseCarthageOptions configs) = Return args
    ∧ result (parseXCConfigPath (Xcconfig configs) (XcconfigFromEnv configs)
                (fileProvider_LocalPath w)) = Return (path, None)
    ∧ result (parseProjectDir (SourceDir configs) args) = Return dir
    ∧ runner_Run w (CarthageCommand configs) args (GithubAccessToken configs) path dir out
      = None.
Proof.
  rewrite main_stages. unfold result.
  destruct (stepconf_Parse w) as [configs|e]; [|discriminate].
  destruct (getCarthageVersion _ _) as [v|e]; [|discriminate].
  destruct (swift_version_cmd w) as [out [e|]]; [discriminate|].
  destruct (parseCarthageOptions configs) as [tr1 [args|code]] eqn:Hopts; [|discriminate].
  destruct (parseXCConfigPath _ _ _) as [tr2 [[path [e|]]|code]] eqn:Hxc;
    [discriminate| |discriminate].
  destruct (parseProjectDir _ _) as [tr3 [dir|code]] eqn:Hdir; [|discriminate].
  destruct (runner_Run w _ _ _ _ _ _) eqn:Hrun; [discriminate|].
  intros _. exists configs, v, out, args, path, dir.
  by rewrite Hopts, Hxc, Hdir.
Qed.

End Stages.

(** ** Lines of the probe output *)

Section ProbeLines.

Context {V : Type}.
Implicit Types (parse : string → option V) (out : string) (v : V).

Lemma strings_Split_cons c s sep :
  strings_Split (String c s) sep
  = match strings_Split s sep with
    | [] => [EmptyString]
    | piece :: pieces =>
        if Ascii.eqb c sep then EmptyString :: piece :: pieces else String c piece :: pieces
    end.
Proof. reflexivity. Qed.

Lemma strings_Split_not_nil s sep : strings_Split s sep ≠ [].
Proof.
  destruct s as [|c s]; [done|]. rewrite strings_Split_cons.
  destruct (strings_Split s sep); [done|]. by destruct (Ascii.eqb c sep).
Qed.

(** A text without separator is one piece. *)
Lemma strings_Split_no_sep s sep :
  all_chars (fun c => negb (Ascii.eqb c sep)) s = true → strings_Split s sep = [s].
Proof.
  induction s as [|c s IH]; [done|]. cbn [all_chars].
  intros [Hc Hs]%andb_true_iff. apply negb_true_iff in Hc.
  by rewrite strings_Split_cons, IH, Hc.
Qed.

(** No piece holds the separator. *)
Lemma strings_Split_pieces s sep :
  Forall (fun piece => all_chars (fun c => negb (Ascii.eqb c sep)) piece = true)
    (strings_Split s sep).
Proof.
  induction s as [|c s IH]; [by repeat constructor|].
  rewrite strings_Split_cons.
  destruct (strings_Split s sep) as [|piece pieces]; [by repeat constructor|].
  destruct (Ascii.eqb c sep) eqn:Hc.
  - by constructor.
  - inversion_clear IH as [|?? Hpiece Hpieces]. constructor; [|done].
    cbn [all_chars]. by rewrite Hc, Hpiece.
Qed.

(** A separator at the end adds one empty piece. *)
Lemma strings_Split_snoc s sep :
  strings_Split (s +:+ str sep) sep = strings_Split s sep ++ [EmptyString].
Proof.
  induction s as [|c s IH].
  - change (EmptyString +:+ str sep) with (String sep EmptyString).
    rewrite strings_Split_cons. cbn. by rewrite Ascii.eqb_refl.
  - rewrite append_cons, !strings_Split_cons, IH.
    pose proof (strings_Split_not_nil s sep).
    destruct (strings_Split s sep) as [|piece pieces]; [done|].
    by destruct (Ascii.eqb c sep).
Qed.

Lemma getCarthageVersion_loop_ext (parse1 parse2 : string → option V) (outLines : list string) :
  Forall (fun l => parse1 l = parse2 l :> option V) outLines →
  getCarthageVersion_loop parse1 outLines = getCarthageVersion_loop parse2 outLines.
Proof. induction 1 as [|l ls Hl _ IH]; cbn; [done|]. by rewrite Hl, IH. Qed.

Lemma getCarthageVersion_loop_snoc parse (outLines : list string) l :
  parse l = None →
  getCarthageVersion_loop parse (outLines ++ [l])
  = getCarthageVersion_loop parse outLines.
Proof.
  intros Hl. induction outLines as [|l' ls IH]; cbn; [by rewrite Hl|].
  by destruct (parse l').
Qed.

(** X9: an output of one line (no newline in it) is handed to the parser
    whole: the version is its parse, and when it does not parse the
    error carries it; the empty output is such a line. *)
Theorem getCarthageVersion_single_line parse out :
  no_newline out = true →
  getCarthageVersion parse (out, None)
  = match parse out with
    | Some v => inl v
    | None => inr ("failed to parse `$ carthage version` output: " +:+ out)
    end.
Proof.
  intros Hout. unfold getCarthageVersion.
  rewrite (strings_Split_no_sep _ _ Hout). cbn [getCarthageVersion_loop].
  by destruct (parse out).
Qed.

(** X10: the parser is only ever asked about texts without newline: two
    parsers that agree on those give the same result on every output. *)
Theorem getCarthageVersion_parser_lines (parse1 parse2 : string → option V) (cmd : string * option error) :
  (∀ l, no_newline l = true → parse1 l = parse2 l :> option V) →
  getCarthageVersion parse1 cmd = getCarthageVersion parse2 cmd.
Proof.
  intros Hagree. destruct cmd as [out [err|]]; [done|]. unfold getCarthageVersion.
  rewrite (getCarthageVersion_loop_ext parse1 parse2); [done|].
  eapply Forall_impl; [apply strings_Split_pieces|]. intros l Hl. by apply Hagree.
Qed.

(** X11: when the parser rejects the empty line, a newline at the end of
    the output does not change the version found; when none is found,
    the error carries the output with its newline. *)
Theorem getCarthageVersion_trailing_newline parse out :
  parse EmptyString = None →
  getCarthageVersion parse (out +:+ str newline, None)
  = match getCarthageVersion parse (out, None) with
    | inl v => inl v
    | inr _ => inr ("failed to parse `$ carthage version` output: " +:+ out +:+ str newline)
    end.
Proof.
  intros Hempty. unfold getCarthageVersion.
  rewrite strings_Split_snoc, getCarthageVersion_loop_snoc by done.
  by destruct (getCarthageVersion_loop _ _).
Qed.

End ProbeLines.

(** Instances on the sample runs. *)

Lemma main_runner_inputs_witness :
  filter is_runner_run (trace (main sample_world))
  = [RunnerRun "bootstrap" ["--platform"; "iOS"; "--project-directory"; "Sub"]
       "/tmp/step.xcconfig" "Sub" sample_swift_banner]
  ∧ result (main sample_world) = Return tt.
Proof.
  apply (main_runner_inputs sample_world sample_config
           {| segments := [0; 38; 0]; pre := EmptyString; metadata := EmptyString;
              original := "0.38.0" |});
    reflexivity.
Defined.

Lemma main_resolves_after_parsing_witness :
  ∃ configs v out args,
    stepconf_Parse sample_world = inl configs
    ∧ getCarthageVersion (version_NewVersion sample_world) (carthage_version_cmd sample_world)
      = inl v
    ∧ swift_version_cmd sample_world = (out, None)
    ∧ parseCarthageOptions configs = ([], Return args)
    ∧ "file:///tmp/step.xcconfig" = Xcconfig configs
    ∧ "file:///tmp/step.xcconfig" ≠ EmptyString.
Proof.
  apply (main_resolves_after_parsing sample_world "file:///tmp/step.xcconfig").
  apply (list_elem_of_lookup_2 _ 6). reflexivity.
Defined.

Lemma main_without_options_witness :
  trace (main bare_world)
  = environment_log bare_config "0.38.0" sample_swift_banner
    ++ [RunnerRun "bootstrap" [] EmptyString "/src" sample_swift_banner].
Proof.
  apply (main_without_options bare_world bare_config
           {| segments := [0; 38; 0]; pre := EmptyString; metadata := EmptyString;
              original := "0.38.0" |} sample_swift_banner);
    reflexivity.
Defined.

Lemma main_swift_banner_witness :
  (∃ before after,
     trace (main sample_world)
     = before
       ++ LogPrintf ("- SwiftVersion: " +:+ strings_Replace sample_swift_banner newline "- ")
          :: after
     ∧ filter is_resolution before = [] ∧ filter is_runner_run before = [])
  ∧ no_newline (strings_Replace sample_swift_banner newline "- ") = true
  ∧ ∀ command args xcconfig dir swiftVersion,
      RunnerRun command args xcconfig dir swiftVersion ∈ trace (main sample_world) →
      swiftVersion = sample_swift_banner.
Proof.
  apply (main_swift_banner sample_world sample_config
           {| segments := [0; 38; 0]; pre := EmptyString; metadata := EmptyString;
              original := "0.38.0" |} sample_swift_banner);
    reflexivity.
Defined.

Lemma getCarthageVersion_single_line_witness :
  getCarthageVersion NewVersion ("v0.38", None)
  = match NewVersion "v0.38" with
    | Some v => inl v
    | None => inr ("failed to parse `$ carthage version` output: " +:+ "v0.38")
    end.
Proof. apply (getCarthageVersion_single_line NewVersion "v0.38"). reflexivity. Defined.

Lemma getCarthageVersion_parser_lines_witness :
  getCarthageVersion NewVersion (probe_output, None)
  = getCarthageVersion (fun l => if no_newline l then NewVersion l else None)
      (probe_output, None).
Proof.
  apply (getCarthageVersion_parser_lines NewVersion
           (fun l => if no_newline l then NewVersion l else None) (probe_output, None)).
  intros l Hl. by rewrite Hl.
Defined.

Lemma getCarthageVersion_trailing_newline_witness :
  getCarthageVersion NewVersion (probe_output_trimmed +:+ str newline, None)
  = match getCarthageVersion NewVersion (probe_output_trimmed, None) with
    | inl v => inl v
    | inr _ => inr ("failed to parse `$ carthage version` output: "
                    +:+ probe_output_trimmed +:+ str newline)
    end.
Proof. apply (getCarthageVersion_trailing_newline NewVersion probe_output_trimmed). reflexivity. Defined.

Lemma main_returns_only_on_success_witness :
  ∃ configs v out args path dir,
    stepconf_Parse sample_world = inl configs
    ∧ getCarthageVersion (version_NewVersion sample_world) (carthage_version_cmd sample_world)
      = inl v
    ∧ swift_version_cmd sample_world = (out, None)
    ∧ result (parseCarthageOptions configs) = Return args
    ∧ result (parseXCConfigPath (Xcconfig configs) (XcconfigFromEnv configs)
                (fileProvider_LocalPath sample_world)) = Return (path, None)
    ∧ result (parseProjectDir (SourceDir configs) args) = Return dir
    ∧ runner_Run sample_world (CarthageCommand configs) args (GithubAccessToken configs)
        path dir out = None.
Proof. apply (main_returns_only_on_success sample_world). reflexivity. Defined.
